(** * StockLens: ledger, position replay, equity curve and analytics

    A shallow embedding of the trading core of the StockLens application:

    - [executeTrade]            (src/lib/services/trade.service.ts)
    - [getUserPortfolio]        (src/lib/services/portfolio.service.ts)
    - [getEquityTimeSeries], [calculateDailyReturns], [calculateVolatility],
      [calculateSharpe], [buildPortfolioSnapshot]   (portfolio analytics)
    - the P&L route [pnlGET] and the trade route [tradePOST].

    Conventions of the embedding.

    - A JavaScript [number] is an exact rational ([Qc], rationals in lowest
      terms, so that equal numbers are equal terms).  Rounding error of
      binary floating point, [NaN] and the infinities are outside the model.
    - A [Date] is its number of milliseconds since the epoch ([Z]);
      [toISOString] is order preserving and injective on the four-digit-year
      range, so an ISO timestamp is identified with that number and its
      ten-character prefix (the UTC calendar day) with the quotient by
      86400000.
    - A JavaScript [Map] keeps insertion order; it is an association list
      with unique keys ([JsMap]).
    - The MongoDB collections are a record [Db]; a mongoose session either
      commits the new [Db] or aborts and leaves the old one. *)

From Stdlib Require Import ZArith QArith Qcanon Qround Lqa Lia String Ascii List Sorted Permutation.
From stdpp Require Import base numbers gmap strings list.
Import ListNotations.

Local Open Scope Z_scope.
Local Open Scope Qc_scope.
Local Open Scope string_scope.
Local Open Scope list_scope.

(** ** Numbers *)

Definition ofInt (z : Z) : Qc := Q2Qc (inject_Z z).
Definition ofFrac (n : Z) (d : positive) : Qc := Q2Qc (n # d).

(** [x.toFixed(d)] read back with [Number(...)]: the multiple of [10^-d]
    nearest to [x]; of two equally near ones the larger in magnitude (the
    sign is split off first, then the larger [n] is picked). *)
Definition pow10 (d : nat) : Z := 10 ^ Z.of_nat d.

Definition toFixedAbs (d : nat) (x : Qc) : Z :=
  Qfloor (x * ofInt (pow10 d) + ofFrac 1 2).

Definition toFixed (d : nat) (x : Qc) : Qc :=
  if decide (x < 0)
  then - (ofInt (toFixedAbs d (- x)) / ofInt (pow10 d))
  else ofInt (toFixedAbs d x) / ofInt (pow10 d).

(** ** Strings: [toUpperCase] and [trim] on ASCII text *)

Definition upperChar (c : ascii) : ascii :=
  let n := nat_of_ascii c in
  if ((97 <=? n) && (n <=? 122))%nat then ascii_of_nat (n - 32) else c.

Fixpoint toUpperCase (s : string) : string :=
  match s with
  | EmptyString => EmptyString
  | String c r => String (upperChar c) (toUpperCase r)
  end.

Definition isSpace (c : ascii) : bool :=
  let n := nat_of_ascii c in
  (((9 <=? n) && (n <=? 13)) || (n =? 32))%nat.

Fixpoint trimStart (s : string) : string :=
  match s with
  | EmptyString => EmptyString
  | String c r => if isSpace c then trimStart r else s
  end.

Definition reverse_string (s : string) : string :=
  string_of_list_ascii (List.rev (list_ascii_of_string s)).

Definition trimEnd (s : string) : string :=
  reverse_string (trimStart (reverse_string s)).

Definition trim (s : string) : string := trimEnd (trimStart s).

(** JavaScript truthiness of a string and of a number. *)
Definition truthyStr (s : string) : bool :=
  match s with EmptyString => false | _ => true end.

Definition truthyNum (x : Qc) : bool := negb (bool_decide (x = 0)).

(** ** A JavaScript [Map] *)

Module JsMap.
Section Ops.
Context {K V : Type} `{EqDecision K}.

Definition t := list (K * V).

Definition empty : t := [].

Fixpoint get (k : K) (m : t) : option V :=
  match m with
  | [] => None
  | (k', v) :: r => if decide (k = k') then Some v else get k r
  end.

Definition has (k : K) (m : t) : bool :=
  match get k m with Some _ => true | None => false end.

(** [set] overwrites in place when the key is present and appends
    otherwise, which is the iteration order of a JavaScript [Map]. *)
Fixpoint set (k : K) (v : V) (m : t) : t :=
  match m with
  | [] => [(k, v)]
  | (k', v') :: r =>
      if decide (k = k') then (k', v) :: r else (k', v') :: set k v r
  end.

Fixpoint delete (k : K) (m : t) : t :=
  match m with
  | [] => []
  | (k', v') :: r =>
      if decide (k = k') then delete k r else (k', v') :: delete k r
  end.

Definition keys (m : t) : list K := map fst m.
End Ops.
Arguments t : clear implicits.
End JsMap.

(** ** The data model (user and transaction schemas) *)

Definition ObjectId := string.

(** [IUser]: [balance] has default 100000 and minimum 0; a stored document
    may lack [startingBalance] (the readers default it). *)
Record User := mkUser {
  balance : Qc;
  startingBalance : option Qc
}.

(** [ITransaction]. *)
Record Transaction := mkTransaction {
  _id : string;
  userId : ObjectId;
  symbol : string;
  type : string;
  quantity : Qc;
  price : Qc;
  totalAmount : Qc;
  createdAt : Z
}.

Record Db := mkDb {
  users : gmap ObjectId User;
  transactions : list Transaction
}.

(** What [getStockDetails] answers: [success] and [data?.currentPrice]. *)
Record StockData := mkStockData {
  success : bool;
  currentPrice : option Qc
}.

(** Everything [executeTrade] obtains from outside the database. *)
Record Env := mkEnv {
  getStockDetails : string -> StockData;
  mkObjectId : string -> option ObjectId;
  newId : string;
  now : Z
}.

(** ** Trade execution *)

Inductive Thrown :=
| Err (message : string)
| BSONError
| ValidationError (path : string) (value : Qc).

Record TradeData := mkTradeData {
  transactionId : string;
  td_symbol : string;
  td_type : string;
  td_quantity : Qc;
  td_price : Qc;
  td_totalAmount : Qc;
  newBalance : Qc
}.

Inductive TradeResult :=
| Success (data : TradeData)
| Failure (error : Thrown).

Definition InvalidParameters := Err "Invalid trade parameters".
Definition PriceUnavailable := Err "Unable to fetch current stock price".
Definition UserNotFound := Err "User not found".
Definition InsufficientBalance := Err "Insufficient balance".
Definition InsufficientHoldings := Err "Insufficient holdings".
Definition InvalidType := Err "Invalid transaction type".

(** [!stockData.success || !stockData.data?.currentPrice] fails the fetch;
    otherwise the price is the (non-zero) number returned. *)
Definition fetchedPrice (d : StockData) : option Qc :=
  if success d then
    match currentPrice d with
    | Some p => if truthyNum p then Some p else None
    | None => None
    end
  else None.

(** [Transaction.find({ userId, symbol })]. *)
Definition findByUserSymbol (uid : ObjectId) (sym : string)
    (l : list Transaction) : list Transaction :=
  filter (fun t => userId t = uid /\ symbol t = sym) l.

(** [Transaction.find({ userId })]. *)
Definition findByUser (uid : ObjectId) (l : list Transaction)
    : list Transaction :=
  filter (fun t => userId t = uid) l.

(** The loop over [transactions] of the SELL branch. *)
Definition netStep (netQuantity : Qc) (txn : Transaction) : Qc :=
  if String.eqb (type txn) "BUY" then netQuantity + quantity txn
  else if String.eqb (type txn) "SELL" then netQuantity - quantity txn
  else netQuantity.

Definition netQuantity (l : list Transaction) : Qc := fold_left netStep l 0.

(** The body of the [try] block, as a computation that either throws or
    yields the user document to save and the transaction to create. *)
Definition tradeBody (env : Env) (db : Db) (userId0 symbol0 type0 : string)
    (quantity0 : Qc) : Thrown + (ObjectId * User * Transaction) :=
  let upperSymbol := trim (toUpperCase symbol0) in
  if negb (truthyStr userId0) || negb (truthyStr upperSymbol)
     || bool_decide (quantity0 < 1)
  then inl InvalidParameters
  else
    match fetchedPrice (getStockDetails env upperSymbol) with
    | None => inl PriceUnavailable
    | Some price0 =>
        let totalAmount0 := price0 * quantity0 in
        match mkObjectId env userId0 with
        | None => inl BSONError
        | Some userObjectId =>
            match users db !! userObjectId with
            | None => inl UserNotFound
            | Some user =>
                let updated : Thrown + User :=
                  if String.eqb type0 "BUY" then
                    if decide (balance user < totalAmount0)
                    then inl InsufficientBalance
                    else inr (mkUser (balance user - totalAmount0)
                                     (startingBalance user))
                  else if String.eqb type0 "SELL" then
                    let txns :=
                      findByUserSymbol userObjectId upperSymbol
                                       (transactions db) in
                    if decide (netQuantity txns < quantity0)
                    then inl InsufficientHoldings
                    else inr (mkUser (balance user + totalAmount0)
                                     (startingBalance user))
                  else inl InvalidType in
                match updated with
                | inl e => inl e
                | inr user' =>
                    (* user.save: the schema validator [min: 0] *)
                    if decide (balance user' < 0)
                    then inl (ValidationError "balance" (balance user'))
                    else
                      inr (userObjectId, user',
                           mkTransaction (newId env) userObjectId upperSymbol
                             type0 quantity0 price0 totalAmount0 (now env))
                end
            end
        end
    end.

(** [executeTrade]: commit on success, abort (database untouched) on any
    throw. *)
Definition executeTrade (env : Env) (db : Db) (userId0 symbol0 type0 : string)
    (quantity0 : Qc) : Db * TradeResult :=
  match tradeBody env db userId0 symbol0 type0 quantity0 with
  | inl e => (db, Failure e)
  | inr (uid, user', txn) =>
      (mkDb (<[uid := user']> (users db)) (transactions db ++ [txn]),
       Success (mkTradeData (_id txn) (symbol txn) (type txn) (quantity txn)
                  (price txn) (totalAmount txn) (balance user')))
  end.

(** A request as the trade route hands it over, with the environment it
    runs in; [runTrades] executes requests one after the other. *)
Record Request := mkRequest {
  r_env : Env;
  r_userId : string;
  r_symbol : string;
  r_type : string;
  r_quantity : Qc
}.

Definition runTrade (db : Db) (r : Request) : Db * TradeResult :=
  executeTrade (r_env r) db (r_userId r) (r_symbol r) (r_type r)
               (r_quantity r).

Definition runTrades (db : Db) (rs : list Request) : Db :=
  fold_left (fun d r => fst (runTrade d r)) rs db.

(** Signed cash effect of a committed transaction and its sum over a log. *)
Definition cashEffect (t : Transaction) : Qc :=
  if String.eqb (type t) "SELL" then totalAmount t
  else if String.eqb (type t) "BUY" then - totalAmount t
  else 0.

Definition sumQc (l : list Qc) : Qc := foldr Qcplus 0 l.

Definition netCash (l : list Transaction) : Qc := sumQc (map cashEffect l).

(** Signed quantity of a transaction (BUY positive, SELL negative). *)
Definition signedQuantity (t : Transaction) : Qc :=
  if String.eqb (type t) "BUY" then quantity t
  else if String.eqb (type t) "SELL" then - quantity t
  else 0.

(** The ledger of account [uid] is consistent in [db] with starting
    balance [s]. *)
Definition ledgerConsistent (uid : ObjectId) (s : Qc) (db : Db) : Prop :=
  exists u, users db !! uid = Some u /\ startingBalance u = Some s /\
            balance u = s + netCash (findByUser uid (transactions db)).

(** ** Sorting

    [Array.prototype.sort] is stable; [le a b] says that the comparator
    does not put [b] strictly before [a]. *)
Section Sort.
Context {A : Type} (le : A -> A -> bool).

Fixpoint insertSorted (x : A) (l : list A) : list A :=
  match l with
  | [] => [x]
  | y :: r => if le x y then x :: y :: r else y :: insertSorted x r
  end.

Definition stableSort (l : list A) : list A := foldr insertSorted [] l.
End Sort.

(** [.sort({ createdAt: 1 })]. *)
Definition sortByCreatedAt (l : list Transaction) : list Transaction :=
  stableSort (fun a b => bool_decide (createdAt a <= createdAt b)%Z) l.

(** ** Position replay ([getUserPortfolio]) *)

Record SymbolState := mkSymbolState {
  st_quantity : Qc;
  st_totalCost : Qc
}.

(** One iteration of the replay loop over the sorted transactions. *)
Definition replayStep (symbolState : JsMap.t string SymbolState)
    (txn : Transaction) : JsMap.t string SymbolState :=
  let sym := symbol txn in
  if String.eqb (type txn) "BUY" then
    let symbolState1 :=
      if JsMap.has sym symbolState then symbolState
      else JsMap.set sym (mkSymbolState 0 0) symbolState in
    match JsMap.get sym symbolState1 with
    | Some state =>
        JsMap.set sym
          (mkSymbolState (st_quantity state + quantity txn)
                         (st_totalCost state + totalAmount txn))
          symbolState1
    | None => symbolState1
    end
  else if String.eqb (type txn) "SELL" then
    match JsMap.get sym symbolState with
    | Some state =>
        let avgCostBeforeSell :=
          if decide (0 < st_quantity state)
          then st_totalCost state / st_quantity state else 0 in
        let totalCost' := st_totalCost state - avgCostBeforeSell * quantity txn in
        let quantity' := st_quantity state - quantity txn in
        if decide (quantity' <= 0) then JsMap.delete sym symbolState
        else JsMap.set sym (mkSymbolState quantity' totalCost') symbolState
    | None => symbolState
    end
  else symbolState.

Definition replay (txns : list Transaction) : JsMap.t string SymbolState :=
  fold_left replayStep txns JsMap.empty.

Record ActiveSymbol := mkActiveSymbol {
  as_symbol : string;
  as_netQty : Qc;
  as_avgCost : Qc
}.

Definition activeSymbolsOf (symbolState : JsMap.t string SymbolState)
    : list ActiveSymbol :=
  flat_map
    (fun '(sym, state) =>
       if decide (st_quantity state <= 0) then []
       else [mkActiveSymbol sym (st_quantity state)
               (if decide (0 < st_quantity state)
                then st_totalCost state / st_quantity state else 0)])
    symbolState.

Record Position := mkPosition {
  pos_symbol : string;
  netQty : Qc;
  avgCost : Qc;
  pos_currentPrice : Qc;
  marketValue : Qc;
  unrealizedPnL : Qc;
  gainPercent : Qc;
  allocationPercent : Qc
}.

Record Portfolio := mkPortfolio {
  pf_balance : Qc;
  positions : list Position;
  totalMarketValue : Qc;
  totalUnrealizedPnL : Qc;
  totalEquity : Qc;
  totalReturn : Qc;
  totalReturnPercent : Qc
}.

(** The price check of the positions loop: a position is kept only with a
    successful fetch of a strictly positive price. *)
Definition validPrice (d : StockData) : option Qc :=
  match fetchedPrice d with
  | Some p => if decide (p <= 0) then None else Some p
  | None => None
  end.

(** Positions before [allocationPercent] is known (that field is 0 here). *)
Definition tempPositionsOf (quote : string -> StockData)
    (active : list ActiveSymbol) : list Position :=
  flat_map
    (fun a =>
       match validPrice (quote (as_symbol a)) with
       | None => []
       | Some currentPrice0 =>
           [mkPosition (as_symbol a) (as_netQty a) (as_avgCost a)
              currentPrice0
              (as_netQty a * currentPrice0)
              ((currentPrice0 - as_avgCost a) * as_netQty a)
              (if decide (0 < as_avgCost a)
               then (currentPrice0 - as_avgCost a) / as_avgCost a * ofInt 100
               else 0)
              0]
       end)
    active.

Definition withAllocation (totalMarketValue0 : Qc) (pos : Position)
    : Position :=
  mkPosition (pos_symbol pos) (netQty pos) (avgCost pos)
    (pos_currentPrice pos) (marketValue pos) (unrealizedPnL pos)
    (gainPercent pos)
    (if decide (0 < totalMarketValue0)
     then marketValue pos / totalMarketValue0 * ofInt 100 else 0).

(** [user.startingBalance || 100000]. *)
Definition startingBalanceOr (u : User) : Qc :=
  match startingBalance u with
  | Some s => if truthyNum s then s else ofInt 100000
  | None => ofInt 100000
  end.

(** Everything after the two database reads. *)
Definition portfolioOf (quote : string -> StockData) (user : User)
    (txns : list Transaction) : Portfolio :=
  let balance0 := balance user in
  let startingBalance0 := startingBalanceOr user in
  let tempPositions := tempPositionsOf quote (activeSymbolsOf (replay txns)) in
  let totalMarketValue0 :=
    fold_left (fun sum pos => sum + marketValue pos) tempPositions 0 in
  let positions0 := map (withAllocation totalMarketValue0) tempPositions in
  let totalUnrealizedPnL0 :=
    fold_left (fun sum pos => sum + unrealizedPnL pos) positions0 0 in
  let totalEquity0 := balance0 + totalMarketValue0 in
  let totalReturn0 := totalEquity0 - startingBalance0 in
  mkPortfolio balance0 positions0 totalMarketValue0 totalUnrealizedPnL0
    totalEquity0 totalReturn0
    (if decide (0 < startingBalance0)
     then totalReturn0 / startingBalance0 * ofInt 100 else 0).

Definition getUserPortfolio (env : Env) (db : Db) (userId0 : string)
    : Thrown + Portfolio :=
  match mkObjectId env userId0 with
  | None => inl BSONError
  | Some userObjectId =>
      match users db !! userObjectId with
      | None => inl UserNotFound
      | Some user =>
          inr (portfolioOf (getStockDetails env) user
                 (sortByCreatedAt (findByUser userObjectId (transactions db))))
      end
  end.

(** ** Equity curve ([getEquityTimeSeries]) *)

(** A transaction document as [.lean()] returns it: the builders check
    whether [createdAt] is present, whether [totalAmount] is a number, and
    of which [type] the document is. *)
Record LeanTransaction := mkLean {
  l_symbol : string;
  l_type : string;
  l_quantity : Qc;
  l_price : Qc;
  l_totalAmount : option Qc;
  l_createdAt : option Z
}.

Definition lean (t : Transaction) : LeanTransaction :=
  mkLean (symbol t) (type t) (quantity t) (price t) (Some (totalAmount t))
         (Some (createdAt t)).

Record EquityPoint := mkPoint {
  date : Z;
  equity : Qc
}.

Record CurveState := mkCurve {
  cash : Qc;
  holdings : JsMap.t string Qc;
  lastPrice : JsMap.t string Qc;
  points : list EquityPoint
}.

(** The three guards that [continue] past a document; when they pass, the
    timestamp and the amount the body works with. *)
Definition guards (txn : LeanTransaction) : option (Z * Qc) :=
  match l_createdAt txn with
  | None => None
  | Some d =>
      match l_totalAmount txn with
      | None => None
      | Some amount =>
          if decide (amount <= 0) then None
          else if negb (String.eqb (l_type txn) "BUY")
                  && negb (String.eqb (l_type txn) "SELL") then None
          else Some (d, amount)
      end
  end.

(** The state updates of one applied transaction. *)
Definition applyTxn (cash0 : Qc) (holdings0 : JsMap.t string Qc)
    (txn : LeanTransaction) (amount : Qc) : Qc * JsMap.t string Qc :=
  let sym := l_symbol txn in
  let held := default 0 (JsMap.get sym holdings0) in
  if String.eqb (l_type txn) "BUY" then
    (cash0 - amount, JsMap.set sym (held + l_quantity txn) holdings0)
  else
    let newQty := held - l_quantity txn in
    (cash0 + amount,
     if decide (newQty <= 0) then JsMap.delete sym holdings0
     else JsMap.set sym newQty holdings0).

Definition holdingsValueOf (holdings0 lastPrice0 : JsMap.t string Qc) : Qc :=
  fold_left
    (fun holdingsValue '(sym, qty) =>
       holdingsValue + qty * default 0 (JsMap.get sym lastPrice0))
    holdings0 0.

Definition curveStep (st : CurveState) (txn : LeanTransaction) : CurveState :=
  match guards txn with
  | None => st
  | Some (d, amount) =>
      let '(cash1, holdings1) := applyTxn (cash st) (holdings st) txn amount in
      let lastPrice1 := JsMap.set (l_symbol txn) (l_price txn) (lastPrice st) in
      mkCurve cash1 holdings1 lastPrice1
        (points st ++ [mkPoint d (cash1 + holdingsValueOf holdings1 lastPrice1)])
  end.

Definition curveInit (startingBalance0 : Qc) : CurveState :=
  mkCurve startingBalance0 JsMap.empty JsMap.empty [].

Definition curveLoop (startingBalance0 : Qc) (txns : list LeanTransaction)
    : CurveState :=
  fold_left curveStep txns (curveInit startingBalance0).

(** The builder after its two reads: [nowT] is [new Date()], [sb] the
    user's [startingBalance] field (absent or a number). *)
Definition equityTimeSeriesOf (nowT : Z) (sb : option Qc)
    (txns : list LeanTransaction) : list EquityPoint :=
  let startingBalance0 := default (ofInt 100000) sb in
  match txns with
  | [] => [mkPoint nowT startingBalance0]
  | _ => points (curveLoop startingBalance0 txns)
  end.

Definition getEquityTimeSeries (env : Env) (db : Db) (userId0 : string)
    : Thrown + list EquityPoint :=
  match mkObjectId env userId0 with
  | None => inl BSONError
  | Some userObjectId =>
      match users db !! userObjectId with
      | None => inl UserNotFound
      | Some user =>
          inr (equityTimeSeriesOf (now env) (startingBalance user)
                 (map lean (sortByCreatedAt
                              (findByUser userObjectId (transactions db)))))
      end
  end.

(** ** The P&L route *)

Record PnLDataPoint := mkPnL {
  pnl_date : Z;
  pnl : Qc
}.

Inductive PnLBody :=
| PnLError (error : string)
| PnLData (data : list PnLDataPoint).

Record PnLResponse := mkPnLResponse {
  pnl_status : nat;
  pnl_body : PnLBody
}.

(** One iteration of the route's loop; the state is the curve state with
    P&L points in place of equity points. *)
Record PnLState := mkPnLState {
  p_cash : Qc;
  p_holdings : JsMap.t string Qc;
  p_lastPrice : JsMap.t string Qc;
  pnlData : list PnLDataPoint
}.

Definition pnlStep (startingBalance0 : Qc) (st : PnLState)
    (txn : LeanTransaction) : PnLState :=
  match guards txn with
  | None => st
  | Some (d, amount) =>
      let '(cash1, holdings1) :=
        applyTxn (p_cash st) (p_holdings st) txn amount in
      let lastPrice1 :=
        JsMap.set (l_symbol txn) (l_price txn) (p_lastPrice st) in
      let equity0 := cash1 + holdingsValueOf holdings1 lastPrice1 in
      mkPnLState cash1 holdings1 lastPrice1
        (pnlData st ++ [mkPnL d (toFixed 2 (equity0 - startingBalance0))])
  end.

Definition pnlLoop (startingBalance0 : Qc) (txns : list LeanTransaction)
    : PnLState :=
  fold_left (pnlStep startingBalance0) txns
    (mkPnLState startingBalance0 JsMap.empty JsMap.empty []).

(** The body of the route after its two reads. *)
Definition pnlSeriesOf (nowT : Z) (sb : option Qc)
    (txns : list LeanTransaction) : list PnLDataPoint :=
  let startingBalance0 := default (ofInt 100000) sb in
  match txns with
  | [] => [mkPnL nowT 0]
  | _ => pnlData (pnlLoop startingBalance0 txns)
  end.

(** [sessionUser] is [session?.user?.id]. *)
Definition pnlGET (env : Env) (db : Db) (sessionUser : option string)
    : PnLResponse :=
  match sessionUser with
  | None => mkPnLResponse 401 (PnLError "Unauthorized")
  | Some uid0 =>
      if negb (truthyStr uid0) then mkPnLResponse 401 (PnLError "Unauthorized")
      else
        match mkObjectId env uid0 with
        | None => mkPnLResponse 500 (PnLError "Internal server error")
        | Some userObjectId =>
            match users db !! userObjectId with
            | None => mkPnLResponse 404 (PnLError "User not found")
            | Some user =>
                mkPnLResponse 200
                  (PnLData
                     (pnlSeriesOf (now env) (startingBalance user)
                        (map lean
                           (sortByCreatedAt
                              (findByUser userObjectId (transactions db))))))
            end
        end
  end.

(** ** Daily returns, volatility, Sharpe ratio *)

Definition msPerDay : Z := 86400000.

(** [p.date.slice(0, 10)]: the UTC calendar day of a timestamp. *)
Definition dayOf (d : Z) : Z := (d / msPerDay)%Z.

(** The loop that pushes day-over-day returns, [prev] being the equity of
    the previous day. *)
Fixpoint returnsFrom (prev : Qc) (rest : list Qc) : list Qc :=
  match rest with
  | [] => []
  | x :: r =>
      (if decide (prev = 0) then [] else [(x - prev) / prev])
        ++ returnsFrom x r
  end.

Definition byDayOf (pts : list EquityPoint) : JsMap.t Z Qc :=
  fold_left (fun byDay p => JsMap.set (dayOf (date p)) (equity p) byDay)
            pts JsMap.empty.

Definition dailyEquitiesOf (pts : list EquityPoint) : list Qc :=
  map snd
    (stableSort (fun a b : Z * Qc => bool_decide (fst a <= fst b)%Z)
                (byDayOf pts)).

Definition calculateDailyReturns (pts : list EquityPoint) : list Qc :=
  if decide (length pts < 2)%nat then []
  else
    match dailyEquitiesOf pts with
    | [] => []
    | first :: rest => returnsFrom first rest
    end.

Definition calculateSharpe (annualisedReturn annualisedVolatility
    riskFreeRate : Qc) : Qc :=
  if decide (annualisedVolatility = 0) then 0
  else (annualisedReturn - riskFreeRate) / annualisedVolatility.

Definition defaultRiskFreeRate : Qc := ofFrac 3 100.

Inductive RiskLevel := LOW | MEDIUM | HIGH.

Record LargestPosition := mkLargest {
  lp_symbol : string;
  lp_allocationPct : Qc
}.

Record SectorAllocation := mkSector {
  sector : string;
  sa_allocationPct : Qc
}.

(** [displayTotalReturnPct], the rounded return printed with a percent
    sign, is a rendering of [totalReturnPct] and is not kept. *)
Record PortfolioSnapshot := mkSnapshot {
  ps_totalEquity : Qc;
  totalReturnPct : Qc;
  cashAllocationPct : Qc;
  largestPosition : option LargestPosition;
  concentrationRiskLevel : RiskLevel;
  sectorBreakdown : list SectorAllocation;
  volatility : Qc;
  sharpeRatio : Qc;
  topGainer : option string;
  topLoser : option string
}.

(** [topAllocation > 40 ? "HIGH" : topAllocation > 25 ? "MEDIUM" : "LOW"]. *)
Definition riskLevelOf (topAllocation : Qc) : RiskLevel :=
  if decide (ofInt 40 < topAllocation) then HIGH
  else if decide (ofInt 25 < topAllocation) then MEDIUM
  else LOW.

(** [positions.reduce((a, b) => a.marketValue > b.marketValue ? a : b)]. *)
Definition largestOf (first : Position) (rest : list Position) : Position :=
  fold_left (fun a b => if decide (marketValue b < marketValue a) then a else b)
            rest first.

Definition largestPositionOf (totalEquity0 : Qc) (ps : list Position)
    : option LargestPosition :=
  match ps with
  | [] => None
  | first :: rest =>
      let largest := largestOf first rest in
      Some (mkLargest (pos_symbol largest)
              (if decide (0 < totalEquity0)
               then toFixed 2 (marketValue largest / totalEquity0 * ofInt 100)
               else 0))
  end.

(** The sector map filled in the order of the positions. *)
Definition sectorMapOf (sectorOf : string -> string) (ps : list Position)
    : JsMap.t string Qc :=
  fold_left
    (fun sectorMap pos =>
       let s := sectorOf (pos_symbol pos) in
       JsMap.set s (default 0 (JsMap.get s sectorMap) + marketValue pos)
                 sectorMap)
    ps JsMap.empty.

Definition sectorBreakdownOf (sectorOf : string -> string) (totalEquity0 : Qc)
    (ps : list Position) : list SectorAllocation :=
  match ps with
  | [] => []
  | _ =>
      stableSort
        (fun a b => bool_decide (sa_allocationPct b <= sa_allocationPct a))
        (map (fun '(s, value) =>
                mkSector s
                  (if decide (0 < totalEquity0)
                   then toFixed 2 (value / totalEquity0 * ofInt 100) else 0))
             (sectorMapOf sectorOf ps))
  end.

(** Top gainer and loser: ends of the positions sorted by [gainPercent];
    one and the same symbol at both ends leaves the loser [null]. *)
Definition topGainerLoserOf (ps : list Position)
    : option string * option string :=
  match stableSort
          (fun a b => bool_decide (gainPercent a <= gainPercent b)) ps with
  | [] => (None, None)
  | lo :: r =>
      let topLoser0 := pos_symbol lo in
      let topGainer0 := pos_symbol (List.last r lo) in
      (Some topGainer0,
       if String.eqb topGainer0 topLoser0 then None else Some topLoser0)
  end.

Section Analytics.
(** [Math.pow] and [Math.sqrt]. *)
Variable Math_pow : Qc -> Qc -> Qc.
Variable Math_sqrt : Qc -> Qc.

Definition calculateVolatility (dailyReturns : list Qc) : Qc :=
  if decide (length dailyReturns < 2)%nat then 0
  else
    let n := ofInt (Z.of_nat (length dailyReturns)) in
    let mean := fold_left (fun sum r => sum + r) dailyReturns 0 / n in
    let variance :=
      fold_left (fun sum r => sum + Math_pow (r - mean) (ofInt 2))
                dailyReturns 0 / (n - 1) in
    let dailyStdDev := Math_sqrt variance in
    dailyStdDev * Math_sqrt (ofInt 252).

(** The total return over the curve. *)
Definition curveTotalReturn (equityPoints : list EquityPoint) : Qc :=
  let firstEquity := default 0 (equity <$> head equityPoints) in
  let lastEquity := default 0 (equity <$> last equityPoints) in
  if decide (0 < firstEquity)
  then (lastEquity - firstEquity) / firstEquity else 0.

Definition annualisedReturnOf (equityPoints : list EquityPoint) : Qc :=
  let numDays := length (calculateDailyReturns equityPoints) in
  if decide (0 < numDays)%nat
  then Math_pow (1 + curveTotalReturn equityPoints)
                (ofInt 252 / ofInt (Z.of_nat numDays)) - 1
  else 0.

(** [buildPortfolioSnapshot] after its two reads; [sectorOf] is what
    [getSymbolSector] resolves to for each symbol. *)
Definition snapshotOf (sectorOf : string -> string) (portfolio : Portfolio)
    (equityPoints : list EquityPoint) : PortfolioSnapshot :=
  let positions0 := positions portfolio in
  let totalEquity0 := totalEquity portfolio in
  let balance0 := pf_balance portfolio in
  let cashAllocationPct0 :=
    if decide (0 < totalEquity0)
    then balance0 / totalEquity0 * ofInt 100 else 0 in
  let largestPosition0 := largestPositionOf totalEquity0 positions0 in
  let topAllocation := default 0 (lp_allocationPct <$> largestPosition0) in
  let dailyReturns := calculateDailyReturns equityPoints in
  let annualisedVolatility := calculateVolatility dailyReturns in
  let sharpeRatio0 :=
    calculateSharpe (annualisedReturnOf equityPoints) annualisedVolatility
                    defaultRiskFreeRate in
  let '(topGainer0, topLoser0) := topGainerLoserOf positions0 in
  mkSnapshot totalEquity0
    (toFixed 2 (totalReturnPercent portfolio))
    cashAllocationPct0
    largestPosition0
    (riskLevelOf topAllocation)
    (sectorBreakdownOf sectorOf totalEquity0 positions0)
    (toFixed 4 annualisedVolatility)
    (toFixed 4 sharpeRatio0)
    topGainer0 topLoser0.

Definition buildPortfolioSnapshot (sectorOf : string -> string) (env : Env)
    (db : Db) (userId0 : string) : Thrown + PortfolioSnapshot :=
  match getUserPortfolio env db userId0,
        getEquityTimeSeries env db userId0 with
  | inr portfolio, inr equityPoints =>
      inr (snapshotOf sectorOf portfolio equityPoints)
  | inl e, _ => inl e
  | _, inl e => inl e
  end.
End Analytics.

(** ** Sector lookup with its process-wide cache ([getSymbolSector]) *)

(** [fetchProfile key] is what the profile request does: it throws
    ([None]) or answers a profile whose [finnhubIndustry] may be absent. *)
Definition getSymbolSector (token : string)
    (fetchProfile : string -> option (option string))
    (sectorCache : JsMap.t string string) (symbol0 : string)
    : string * JsMap.t string string :=
  let key := toUpperCase symbol0 in
  match JsMap.get key sectorCache with
  | Some s => (s, sectorCache)
  | None =>
      if negb (truthyStr token) then ("Unknown", sectorCache)
      else
        match fetchProfile key with
        | Some profile =>
            let sector0 :=
              match profile with
              | Some s => if truthyStr s then s else "Unknown"
              | None => "Unknown"
              end in
            (sector0, JsMap.set key sector0 sectorCache)
        | None => ("Unknown", JsMap.set key "Unknown" sectorCache)
        end
  end.

(** ** The trade route ([POST /api/trade]) *)

Inductive JsValue :=
| JsUndefined
| JsNull
| JsBool (b : bool)
| JsNumber (x : Qc)
| JsString (s : string)
| JsObject.

Record TradeBody := mkTradeBody {
  b_symbol : JsValue;
  b_type : JsValue;
  b_quantity : JsValue
}.

Record TradeResponse := mkTradeResponse {
  status : nat;
  body : TradeResult
}.

Definition reject (code : nat) (message : string) : TradeResponse :=
  mkTradeResponse code (Failure (Err message)).

(** [parsed] is the outcome of [request.json()] and of destructuring it:
    the message of the error thrown, or the three fields. *)
Definition tradePOST (env : Env) (db : Db) (sessionUser : option string)
    (parsed : string + TradeBody) : Db * TradeResponse :=
  match sessionUser with
  | None => (db, reject 401 "Unauthorized")
  | Some uid0 =>
      if negb (truthyStr uid0) then (db, reject 401 "Unauthorized")
      else
        match parsed with
        | inl message => (db, reject 500 message)
        | inr b =>
            match b_symbol b with
            | JsString symbol0 =>
                if negb (truthyStr symbol0) then (db, reject 400 "Invalid symbol")
                else
                  match b_type b with
                  | JsString type0 =>
                      if negb (String.eqb type0 "BUY")
                         && negb (String.eqb type0 "SELL")
                      then (db, reject 400 "Invalid type. Must be BUY or SELL")
                      else
                        match b_quantity b with
                        | JsNumber quantity0 =>
                            if negb (truthyNum quantity0)
                               || bool_decide (quantity0 < 1)
                            then (db, reject 400
                                    "Invalid quantity. Must be a positive number")
                            else
                              let '(db', result) :=
                                executeTrade env db uid0 symbol0 type0
                                             quantity0 in
                              (db', mkTradeResponse
                                      (match result with
                                       | Success _ => 200
                                       | Failure _ => 400
                                       end)
                                      result)
                        | _ => (db, reject 400
                                  "Invalid quantity. Must be a positive number")
                        end
                  | _ => (db, reject 400 "Invalid type. Must be BUY or SELL")
                  end
            | _ => (db, reject 400 "Invalid symbol")
            end
        end
  end.


(** ** Vocabulary for the properties of the curve builders *)

(** A document is malformed when its timestamp is missing, its
    [totalAmount] is not a positive number, or its [type] is neither BUY
    nor SELL. *)
Definition malformed (t : LeanTransaction) : Prop :=
  l_createdAt t = None \/
  (forall a, l_totalAmount t = Some a -> a <= 0) \/
  (l_type t <> "BUY" /\ l_type t <> "SELL").

(** The documents that pass the guards, as a boolean test. *)
Definition passes (t : LeanTransaction) : bool :=
  match guards t with Some _ => true | None => false end.

(** A log is ordered when the timestamps present in it never decrease. *)
Definition ordered (txns : list LeanTransaction) : Prop :=
  StronglySorted Z.le (omap l_createdAt txns).

(** ** Vocabulary for the properties of the snapshot *)

(** A value as a percentage of total equity, at full precision (0 when the
    equity is not positive, as in every such expression of the builder). *)
Definition sharePct (totalEquity0 value : Qc) : Qc :=
  if decide (0 < totalEquity0) then value / totalEquity0 * ofInt 100 else 0.




(** ** Vocabulary for runs of the trade engine *)

(** The results of a run, request by request. *)
Fixpoint runTradesLog (db : Db) (rs : list Request) : Db * list TradeResult :=
  match rs with
  | [] => (db, [])
  | r :: rs' =>
      let '(db1, res) := runTrade db r in
      let '(db2, ress) := runTradesLog db1 rs' in
      (db2, res :: ress)
  end.

(** No account is overdrawn. *)
Definition balancesNonNegative (db : Db) : Prop :=
  forall uid u, users db !! uid = Some u -> 0 <= balance u.

(** No user is short of any symbol. *)
Definition holdingsNonNegative (db : Db) : Prop :=
  forall uid sym, 0 <= netQuantity (findByUserSymbol uid sym (transactions db)).

(** The symbol normalisation of the engine, which is also what the
    schema's [uppercase] and [trim] setters do. *)
Definition normalizeSymbol (s : string) : string := trim (toUpperCase s).

(** [trimStart] on a list of characters. *)
Fixpoint dropSpaces (l : list ascii) : list ascii :=
  match l with
  | [] => []
  | c :: r => if isSpace c then dropSpaces r else l
  end.

(** ** Vocabulary for the position replayer *)

(** The signed quantity of [sym] over a log. *)
Definition symbolNet (sym : string) (l : list Transaction) : Qc :=
  netQuantity (filter (fun t => symbol t = sym) l).

(** At no point of the log is a symbol sold beyond what is held: what the
    engine's holdings check enforces on every commit. *)
Definition neverShort (l : list Transaction) : Prop :=
  forall pre post sym, l = pre ++ post -> 0 <= symbolNet sym pre.

(** The average cost the replayer reports for a symbol state. *)
Definition avgCostOf (state : SymbolState) : Qc :=
  st_totalCost state / st_quantity state.

(** The clocks of a run never go back: the timestamps already logged,
    followed by the times at which the pending requests will run, never
    decrease. *)
Definition clockOrdered (db : Db) (rs : list Request) : Prop :=
  StronglySorted Z.le
    (map createdAt (transactions db) ++ map (fun r => now (r_env r)) rs).

(** ** Vocabulary for the curve *)

(** The signed cash effect the curve builders give a document: nothing
    for a skipped one. *)
Definition leanCashEffect (t : LeanTransaction) : Qc :=
  match guards t with
  | Some (_, amount) =>
      if String.eqb (l_type t) "BUY" then - amount else amount
  | None => 0
  end.

(** The equity of a curve state: cash plus holdings at last prices. *)
Definition equityOf (st : CurveState) : Qc :=
  cash st + holdingsValueOf (holdings st) (lastPrice st).

(** ** Sample data *)

Definition quoteAt (p : Qc) : string -> StockData :=
  fun _ => mkStockData true (Some p).

Definition sampleEnv (p : Qc) (id : string) (t : Z) : Env :=
  mkEnv (quoteAt p) (fun s => Some s) id t.

Definition sampleUser : User := mkUser (ofInt 100000) (Some (ofInt 100000)).

Definition sampleDb : Db := mkDb {[ "u1" := sampleUser ]} [].

Definition sampleBuy : Request :=
  mkRequest (sampleEnv (ofInt 150) "t1" 1000) "u1" " aapl " "BUY" (ofInt 100).

Definition sampleSell : Request :=
  mkRequest (sampleEnv (ofInt 160) "t2" 2000) "u1" "AAPL" "SELL" (ofInt 50).

Definition sampleLog : list Transaction :=
  [mkTransaction "a" "u1" "X" "BUY" (ofInt 10) (ofInt 10) (ofInt 100) 1;
   mkTransaction "b" "u1" "X" "SELL" (ofInt 10) (ofInt 15) (ofInt 150) 2;
   mkTransaction "c" "u1" "X" "BUY" (ofInt 5) (ofInt 20) (ofInt 100) 3].

(** Documents that the builders skip: no timestamp, a zero amount, a type
    that is neither BUY nor SELL. *)
Definition sampleBadLog : list LeanTransaction :=
  [mkLean "X" "BUY" (ofInt 1) (ofInt 10) (Some (ofInt 10)) None;
   mkLean "X" "BUY" (ofInt 1) (ofInt 10) (Some 0) (Some 5%Z);
   mkLean "X" "HOLD" (ofInt 1) (ofInt 10) (Some (ofInt 10)) (Some 6%Z)].

(** One position bought at 40004 in an account left with 59996 in cash:
    the position is 40.004 percent of the equity of 100000. *)
Definition edgeUser : User := mkUser (ofInt 59996) (Some (ofInt 100000)).

Definition edgeLog : list Transaction :=
  [mkTransaction "a" "u1" "X" "BUY" (ofInt 1) (ofInt 40004) (ofInt 40004) 1].

Definition edgePortfolio : Portfolio :=
  portfolioOf (quoteAt (ofInt 40004)) edgeUser edgeLog.



(** Two buys of the same symbol on consecutive days, then a live quote of
    30: the curve ends at the last traded price 20, the portfolio is
    valued at 30. *)
Definition driftLog : list Transaction :=
  [mkTransaction "a" "u1" "X" "BUY" (ofInt 10) (ofInt 10) (ofInt 100) 1000;
   mkTransaction "b" "u1" "X" "BUY" (ofInt 1) (ofInt 20) (ofInt 20)
                 (msPerDay + 1000)].

Definition driftUser : User := mkUser (ofInt 99880) (Some (ofInt 100000)).

Definition driftDb : Db := mkDb {[ "u1" := driftUser ]} driftLog.

Definition driftCurve : list EquityPoint :=
  equityTimeSeriesOf 0 (startingBalance driftUser) (map lean driftLog).

Definition driftPortfolio : Portfolio :=
  portfolioOf (quoteAt (ofInt 30)) driftUser driftLog.
(* ===================================================================== *)
(** * Properties *)
(* ===================================================================== *)

(** ** Rational arithmetic: from [Qc] to [Q] *)

Lemma this_plus (x y : Qc) : (this (x + y) == this x + this y)%Q.
Proof. unfold Qcplus. simpl. apply Qred_correct. Qed.
Lemma this_mult (x y : Qc) : (this (x * y) == this x * this y)%Q.
Proof. unfold Qcmult. simpl. apply Qred_correct. Qed.
Lemma this_opp (x : Qc) : (this (- x) == - this x)%Q.
Proof. unfold Qcopp. simpl. apply Qred_correct. Qed.
Lemma this_minus (x y : Qc) : (this (x - y) == this x - this y)%Q.
Proof. unfold Qcminus. rewrite this_plus, this_opp. reflexivity. Qed.
Lemma this_inv (x : Qc) : (this (/ x) == / this x)%Q.
Proof. unfold Qcinv. simpl. apply Qred_correct. Qed.
Lemma this_div (x y : Qc) : (this (x / y) == this x / this y)%Q.
Proof. unfold Qcdiv. rewrite this_mult, this_inv. reflexivity. Qed.
Lemma this_Q2Qc (q : Q) : (this (Q2Qc q) == q)%Q.
Proof. simpl. apply Qred_correct. Qed.
Lemma this_0 : (this 0 == 0)%Q. Proof. reflexivity. Qed.
Lemma this_1 : (this 1 == 1)%Q. Proof. reflexivity. Qed.
Lemma Qc_eq_this (x y : Qc) : x = y <-> (this x == this y)%Q.
Proof. split; [intros ->; reflexivity | apply Qc_is_canon]. Qed.

Ltac qc_push :=
  repeat (rewrite ?this_plus, ?this_minus, ?this_mult, ?this_opp, ?this_div,
            ?this_inv, ?this_Q2Qc).
Ltac qc_push_in H :=
  repeat (rewrite ?this_plus, ?this_minus, ?this_mult, ?this_opp, ?this_div,
            ?this_inv, ?this_Q2Qc in H).
Ltac to_Q :=
  repeat match goal with
  | H : @eq Qc _ _ |- _ => apply Qc_eq_this in H; qc_push_in H
  | H : ~ @eq Qc _ _ |- _ => rewrite Qc_eq_this in H; qc_push_in H
  | H : Qclt _ _ |- _ => unfold Qclt in H; qc_push_in H
  | H : Qcle _ _ |- _ => unfold Qcle in H; qc_push_in H
  | H : ~ Qclt _ _ |- _ => unfold Qclt in H; qc_push_in H
  | H : ~ Qcle _ _ |- _ => unfold Qcle in H; qc_push_in H
  end;
  try (apply Qc_is_canon); unfold Qclt, Qcle; qc_push.


(** Closed comparisons of rationals, by computation. *)
Ltac qc_decide :=
  vm_compute; first [reflexivity | discriminate | intro; discriminate].
(** ** Trade execution: what a commit looks like *)

Lemma tradeBody_commit env db uid0 sym ty q uid user' txn :
  tradeBody env db uid0 sym ty q = inr (uid, user', txn) ->
  exists user p,
    mkObjectId env uid0 = Some uid /\
    users db !! uid = Some user /\
    fetchedPrice (getStockDetails env (trim (toUpperCase sym))) = Some p /\
    txn = mkTransaction (newId env) uid (trim (toUpperCase sym)) ty q p
                        (p * q) (now env) /\
    startingBalance user' = startingBalance user /\
    ~ balance user' < 0 /\
    ~ q < 1 /\
    ((ty = "BUY" /\ ~ balance user < p * q /\
      balance user' = balance user - p * q) \/
     (ty = "SELL" /\
      ~ netQuantity (findByUserSymbol uid (trim (toUpperCase sym))
                                      (transactions db)) < q /\
      balance user' = balance user + p * q)).
Proof.
  unfold tradeBody. intros H.
  destruct (negb (truthyStr uid0) || negb (truthyStr (trim (toUpperCase sym)))
            || bool_decide (q < 1)) eqn:Hv; [discriminate|].
  apply orb_false_iff in Hv as [_ Hq]. apply bool_decide_eq_false in Hq.
  destruct (fetchedPrice _) as [p|] eqn:Hp; [|discriminate].
  destruct (mkObjectId env uid0) as [oid|] eqn:Ho; [|discriminate].
  destruct (users db !! oid) as [user|] eqn:Hu; [|discriminate].
  destruct (String.eqb ty "BUY") eqn:Hb.
  - apply String.eqb_eq in Hb. subst ty.
    destruct (decide (balance user < p * q)); [discriminate|].
    destruct (decide (_ < 0)); [discriminate|].
    inversion H; subst; clear H. exists user, p. simpl.
    repeat split; auto.
  - destruct (String.eqb ty "SELL") eqn:Hs; [|discriminate].
    apply String.eqb_eq in Hs. subst ty.
    destruct (decide (netQuantity _ < q)); [discriminate|].
    destruct (decide (_ < 0)); [discriminate|].
    inversion H; subst; clear H. exists user, p. simpl.
    repeat split; auto.
Qed.


Lemma sumQc_app l1 l2 : sumQc (l1 ++ l2) = sumQc l1 + sumQc l2.
Proof.
  induction l1 as [|x l1 IH]; simpl.
  - ring.
  - unfold sumQc in *. simpl. rewrite IH. ring.
Qed.


Lemma findByUser_app uid l1 l2 :
  findByUser uid (l1 ++ l2) = findByUser uid l1 ++ findByUser uid l2.
Proof. unfold findByUser. apply filter_app. Qed.

Lemma findByUser_single uid t :
  findByUser uid [t] = if decide (userId t = uid) then [t] else [].
Proof. unfold findByUser. rewrite filter_cons, filter_nil. reflexivity. Qed.



(** ** C1-C3: the trade engine *)


(** C2 (no overdraft).  A BUY whose parameters pass validation, whose price
    is fetched and whose account exists, but whose account holds strictly
    less cash than price times quantity, fails with "Insufficient balance"
    and returns the database unchanged. *)
Theorem no_overdraft (env : Env) (db : Db) (userId0 symbol0 : string)
    (quantity0 price0 : Qc) (uid : ObjectId) (user : User) :
  truthyStr userId0 = true ->
  truthyStr (trim (toUpperCase symbol0)) = true ->
  1 <= quantity0 ->
  fetchedPrice (getStockDetails env (trim (toUpperCase symbol0))) = Some price0 ->
  mkObjectId env userId0 = Some uid ->
  users db !! uid = Some user ->
  balance user < price0 * quantity0 ->
  executeTrade env db userId0 symbol0 "BUY" quantity0
  = (db, Failure InsufficientBalance).
Proof.
  intros Hid Hsym Hq Hp Ho Hu Hlt.
  unfold executeTrade, tradeBody.
  rewrite Hid, Hsym. simpl.
  rewrite bool_decide_eq_false_2 by (apply Qcle_not_lt; assumption).
  rewrite Hp, Ho, Hu. simpl.
  rewrite decide_True by assumption. reflexivity.
Qed.

Lemma netStep_signed acc t : netStep acc t = acc + signedQuantity t.
Proof.
  unfold netStep, signedQuantity.
  destruct (String.eqb (type t) "BUY"); [reflexivity|].
  destruct (String.eqb (type t) "SELL"); ring.
Qed.

Lemma fold_netStep l : forall acc,
  fold_left netStep l acc = acc + sumQc (map signedQuantity l).
Proof.
  induction l as [|t l IH]; intros acc; simpl.
  - unfold sumQc. simpl. ring.
  - rewrite IH, netStep_signed. unfold sumQc. simpl. ring.
Qed.

(** The loop of the SELL branch computes the signed sum of quantities. *)
Lemma netQuantity_signed_sum l :
  netQuantity l = sumQc (map signedQuantity l).
Proof. unfold netQuantity. rewrite fold_netStep. ring. Qed.

(** C3 (no oversell).  For a SELL that passes validation, with a fetched
    positive price and an existing account of non-negative balance:
    the net quantity the engine computes is the signed sum (BUY positive,
    SELL negative) over the user's committed transactions in that symbol;
    if it is below the requested quantity the call fails with
    "Insufficient holdings" and returns the database unchanged; otherwise
    (equality included) the call commits, crediting price times quantity
    to the balance and appending one SELL transaction. *)
Theorem no_oversell (env : Env) (db : Db) (userId0 symbol0 : string)
    (quantity0 price0 : Qc) (uid : ObjectId) (user : User) :
  truthyStr userId0 = true ->
  truthyStr (trim (toUpperCase symbol0)) = true ->
  1 <= quantity0 ->
  fetchedPrice (getStockDetails env (trim (toUpperCase symbol0))) = Some price0 ->
  0 < price0 ->
  mkObjectId env userId0 = Some uid ->
  users db !! uid = Some user ->
  0 <= balance user ->
  let upperSymbol := trim (toUpperCase symbol0) in
  let prior := findByUserSymbol uid upperSymbol (transactions db) in
  let totalAmount0 := price0 * quantity0 in
  netQuantity prior = sumQc (map signedQuantity prior) /\
  (netQuantity prior < quantity0 ->
   executeTrade env db userId0 symbol0 "SELL" quantity0
   = (db, Failure InsufficientHoldings)) /\
  (quantity0 <= netQuantity prior ->
   executeTrade env db userId0 symbol0 "SELL" quantity0
   = (mkDb (<[uid := mkUser (balance user + totalAmount0)
                            (startingBalance user)]> (users db))
           (transactions db ++
              [mkTransaction (newId env) uid upperSymbol "SELL" quantity0
                 price0 totalAmount0 (now env)]),
      Success (mkTradeData (newId env) upperSymbol "SELL" quantity0 price0
                 totalAmount0 (balance user + totalAmount0)))).
Proof.
  intros Hid Hsym Hq Hp Hpos Ho Hu Hbal upperSymbol prior totalAmount0.
  split; [apply netQuantity_signed_sum|].
  assert (Hstart : forall X : Db * TradeResult,
    match (if decide (netQuantity prior < quantity0)
           then inl InsufficientHoldings
           else inr (mkUser (balance user + totalAmount0)
                            (startingBalance user)) : Thrown + User) with
    | inl e => (db, Failure e)
    | inr user' =>
        if decide (balance user' < 0)
        then (db, Failure (ValidationError "balance" (balance user')))
        else (mkDb (<[uid := user']> (users db))
                (transactions db ++
                   [mkTransaction (newId env) uid upperSymbol "SELL"
                      quantity0 price0 totalAmount0 (now env)]),
              Success (mkTradeData (newId env) upperSymbol "SELL" quantity0
                         price0 totalAmount0 (balance user')))
    end = X ->
    executeTrade env db userId0 symbol0 "SELL" quantity0 = X).
  { intros X <-. unfold executeTrade, tradeBody.
    rewrite Hid, Hsym. simpl.
    rewrite bool_decide_eq_false_2 by (apply Qcle_not_lt; assumption).
    rewrite Hp, Ho, Hu. simpl. fold upperSymbol. fold prior.
    fold totalAmount0.
    destruct (decide (netQuantity prior < quantity0)); [reflexivity|].
    simpl. destruct (decide (balance user + totalAmount0 < 0)); reflexivity. }
  split; intros Hnet; apply Hstart.
  - rewrite decide_True by assumption. reflexivity.
  - rewrite decide_False by (apply Qcle_not_lt; assumption). simpl.
    rewrite decide_False; [reflexivity|].
    subst totalAmount0. clear - Hq Hpos Hbal.
    to_Q. change (this 0) with 0%Q in *. change (this 1) with 1%Q in *. nra.
Qed.



Lemma no_overdraft_witness :
  executeTrade (sampleEnv (ofInt 150) "t1" 1000) sampleDb "u1" "aapl" "BUY"
               (ofInt 1000)
  = (sampleDb, Failure InsufficientBalance).
Proof.
  apply (no_overdraft (sampleEnv (ofInt 150) "t1" 1000) sampleDb "u1" "aapl"
           (ofInt 1000) (ofInt 150) "u1" sampleUser);
    first [reflexivity | qc_decide].
Defined.

Lemma no_oversell_witness :
  let db := fst (runTrade sampleDb sampleBuy) in
  let prior := findByUserSymbol "u1" "AAPL" (transactions db) in
  netQuantity prior = sumQc (map signedQuantity prior) /\
  (netQuantity prior < ofInt 100 ->
   executeTrade (sampleEnv (ofInt 160) "t2" 2000) db "u1" "aapl" "SELL" (ofInt 100)
   = (db, Failure InsufficientHoldings)) /\
  (ofInt 100 <= netQuantity prior ->
   executeTrade (sampleEnv (ofInt 160) "t2" 2000) db "u1" "aapl" "SELL" (ofInt 100)
   = (mkDb (<["u1" := mkUser (ofInt 85000 + ofInt 160 * ofInt 100)
                             (Some (ofInt 100000))]> (users db))
           (transactions db ++
              [mkTransaction "t2" "u1" "AAPL" "SELL" (ofInt 100) (ofInt 160)
                 (ofInt 160 * ofInt 100) 2000]),
      Success (mkTradeData "t2" "AAPL" "SELL" (ofInt 100) (ofInt 160)
                 (ofInt 160 * ofInt 100)
                 (ofInt 85000 + ofInt 160 * ofInt 100)))).
Proof.
  apply (no_oversell (sampleEnv (ofInt 160) "t2" 2000)
           (fst (runTrade sampleDb sampleBuy)) "u1" "aapl" (ofInt 100)
           (ofInt 160) "u1" (mkUser (ofInt 85000) (Some (ofInt 100000))));
    first [reflexivity | qc_decide ].
Defined.

(** ** C4, C9: the equity curve and the P&L series *)

Lemma guards_Some t d a :
  guards t = Some (d, a) <->
  l_createdAt t = Some d /\ l_totalAmount t = Some a /\ 0 < a /\
  (l_type t = "BUY" \/ l_type t = "SELL").
Proof.
  unfold guards.
  destruct (l_createdAt t) as [d'|]; [|split; [discriminate|intros [? _]; discriminate]].
  destruct (l_totalAmount t) as [a'|];
    [|split; [discriminate|intros (_ & ? & _); discriminate]].
  destruct (decide (a' <= 0)) as [Hle|Hgt].
  { split; [discriminate|]. intros (_ & Ha & Hpos & _).
    inversion Ha; subst. exfalso. eapply Qclt_not_le; eassumption. }
  apply Qcnot_le_lt in Hgt.
  destruct (String.eqb (l_type t) "BUY") eqn:Hb; simpl.
  - apply String.eqb_eq in Hb. split.
    + intros H; inversion H; subst; auto.
    + intros (Hd & Ha & _ & _). inversion Hd; inversion Ha; reflexivity.
  - destruct (String.eqb (l_type t) "SELL") eqn:Hs; simpl.
    + apply String.eqb_eq in Hs. split.
      * intros H; inversion H; subst; auto.
      * intros (Hd & Ha & _ & _). inversion Hd; inversion Ha; reflexivity.
    + apply String.eqb_neq in Hb, Hs. split; [discriminate|].
      intros (_ & _ & _ & [?|?]); contradiction.
Qed.

Lemma guards_None t : guards t = None <-> malformed t.
Proof.
  split.
  - intros H. unfold malformed.
    destruct (l_createdAt t) as [d|] eqn:Hd; [|left; reflexivity].
    destruct (l_totalAmount t) as [a|] eqn:Ha;
      [|right; left; intros ? ?; discriminate].
    destruct (decide (a <= 0)) as [Hle|Hgt];
      [right; left; intros ? [= <-]; assumption|].
    right; right.
    destruct (String.eqb (l_type t) "BUY") eqn:Hb;
      destruct (String.eqb (l_type t) "SELL") eqn:Hs;
      try (apply String.eqb_neq in Hb, Hs; split; assumption);
      exfalso;
      assert (Hg : guards t = Some (d, a))
        by (apply guards_Some; repeat split;
            [assumption | assumption | apply Qcnot_le_lt; assumption
            | first [left; apply String.eqb_eq; assumption
                    | right; apply String.eqb_eq; assumption]]);
      rewrite Hg in H; discriminate.
  - intros Hm. destruct (guards t) as [[d a]|] eqn:Hg; [|reflexivity].
    apply guards_Some in Hg as (Hd & Ha & Hpos & Hty). exfalso.
    destruct Hm as [Hm|[Hm|[Hb Hs]]].
    + congruence.
    + eapply Qclt_not_le; [exact Hpos|]. apply Hm. assumption.
    + destruct Hty; contradiction.
Qed.

Lemma passes_true t : passes t = true <-> ~ malformed t.
Proof.
  unfold passes. rewrite <- guards_None.
  destruct (guards t); split; intros; try congruence; try discriminate.
Qed.

(** The timestamp of the point a document yields, if it yields one. *)
Lemma stamp_of_guards t :
  fst <$> guards t = if passes t then l_createdAt t else None.
Proof.
  unfold passes. destruct (guards t) as [[d a]|] eqn:Hg; [|reflexivity].
  apply guards_Some in Hg as (Hd & _). simpl. congruence.
Qed.

Lemma omap_cons {A B} (f : A -> option B) (x : A) (l : list A) :
  omap f (x :: l)
  = match f x with Some y => y :: omap f l | None => omap f l end.
Proof. reflexivity. Qed.

Lemma omap_stamp txns :
  omap (fun t => fst <$> guards t) txns
  = omap l_createdAt (List.filter passes txns).
Proof.
  induction txns as [|t txns IH]; [reflexivity|].
  rewrite omap_cons, stamp_of_guards. simpl List.filter.
  destruct (passes t); [rewrite omap_cons|]; rewrite IH; reflexivity.
Qed.

Lemma curveLoop_dates txns : forall st,
  map date (points (fold_left curveStep txns st))
  = map date (points st) ++ omap (fun t => fst <$> guards t) txns.
Proof.
  induction txns as [|t txns IH]; intros st; simpl.
  - rewrite app_nil_r. reflexivity.
  - rewrite IH. unfold curveStep.
    destruct (guards t) as [[d a]|]; simpl; [|reflexivity].
    destruct (applyTxn (cash st) (holdings st) t a) as [c h]. simpl.
    rewrite map_app. simpl. rewrite <- app_assoc. reflexivity.
Qed.

Lemma pnlLoop_dates sb txns : forall st,
  map pnl_date (pnlData (fold_left (pnlStep sb) txns st))
  = map pnl_date (pnlData st) ++ omap (fun t => fst <$> guards t) txns.
Proof.
  induction txns as [|t txns IH]; intros st; simpl.
  - rewrite app_nil_r. reflexivity.
  - rewrite IH. unfold pnlStep.
    destruct (guards t) as [[d a]|]; simpl; [|reflexivity].
    destruct (applyTxn (p_cash st) (p_holdings st) t a) as [c h]. simpl.
    rewrite map_app. simpl. rewrite <- app_assoc. reflexivity.
Qed.

Lemma filter_all_pass txns :
  Forall (fun t => ~ malformed t) txns -> List.filter passes txns = txns.
Proof.
  induction 1 as [|t txns Ht _ IH]; [reflexivity|].
  simpl. apply passes_true in Ht. rewrite Ht, IH. reflexivity.
Qed.

Lemma filter_none_pass txns :
  Forall malformed txns -> List.filter passes txns = [].
Proof.
  induction 1 as [|t txns Ht _ IH]; [reflexivity|].
  simpl. destruct (passes t) eqn:Hp; [|assumption].
  apply passes_true in Hp. contradiction.
Qed.

Lemma Forall_omap_filter (x : Z) txns :
  Forall (Z.le x) (omap l_createdAt txns) ->
  Forall (Z.le x) (omap l_createdAt (List.filter passes txns)).
Proof.
  induction txns as [|t txns IH]; [auto|].
  simpl List.filter. destruct (passes t); rewrite ?omap_cons;
    destruct (l_createdAt t); intros H;
    try (apply Forall_cons_1 in H as [? ?]); try constructor; auto.
Qed.

Lemma ordered_filter txns :
  ordered txns -> StronglySorted Z.le (omap l_createdAt (List.filter passes txns)).
Proof.
  unfold ordered. induction txns as [|t txns IH]; [auto|].
  simpl List.filter. destruct (passes t); rewrite ?omap_cons;
    destruct (l_createdAt t); intros H;
    try (apply StronglySorted_inv in H as [? ?]); try constructor;
    auto using Forall_omap_filter.
Qed.

Lemma omap_length_all txns :
  Forall (fun t => ~ malformed t) txns ->
  length (omap l_createdAt txns) = length txns.
Proof.
  induction 1 as [|t txns Ht _ IH]; [reflexivity|].
  apply passes_true in Ht. unfold passes in Ht.
  destruct (guards t) as [[d a]|] eqn:Hg; [|discriminate].
  apply guards_Some in Hg as (Hd & _). rewrite omap_cons, Hd.
  simpl length. rewrite IH. reflexivity.
Qed.

(** Both loops stamp one point per document that passes the guards. *)
Lemma equity_curve_dates (startingBalance0 : Qc) (txns : list LeanTransaction) :
  map date (points (curveLoop startingBalance0 txns))
  = omap l_createdAt (List.filter passes txns) /\
  map pnl_date (pnlData (pnlLoop startingBalance0 txns))
  = omap l_createdAt (List.filter passes txns).
Proof.
  split.
  - unfold curveLoop. rewrite curveLoop_dates. simpl. apply omap_stamp.
  - unfold pnlLoop. rewrite pnlLoop_dates. simpl. apply omap_stamp.
Qed.

(** C4 (point emission).  The loop of the equity builder (and the loop of
    the P&L route) emits one point per document that passes the guards, in
    input order, stamped with that document's [createdAt]; a malformed
    document leaves the whole loop state (cash, holdings, last prices,
    points) as it was; so a log of N well-formed documents gives N points,
    and an ordered log gives non-decreasing timestamps.  A non-empty log
    makes the builder return exactly the loop's points. *)
Theorem equity_point_emission (startingBalance0 : Qc)
    (txns : list LeanTransaction) :
  let curve := points (curveLoop startingBalance0 txns) in
  let series := pnlData (pnlLoop startingBalance0 txns) in
  (forall t, passes t = true <-> ~ malformed t) /\
  map date curve = omap l_createdAt (List.filter passes txns) /\
  map pnl_date series = omap l_createdAt (List.filter passes txns) /\
  (forall st t, malformed t -> curveStep st t = st) /\
  (forall st t, malformed t -> pnlStep startingBalance0 st t = st) /\
  (ordered txns -> StronglySorted Z.le (map date curve)) /\
  (Forall (fun t => ~ malformed t) txns ->
   length curve = length txns /\ length series = length txns) /\
  (forall nowT sb, txns <> [] ->
   equityTimeSeriesOf nowT sb txns
   = points (curveLoop (default (ofInt 100000) sb) txns)).
Proof.
  intros curve series.
  destruct (equity_curve_dates startingBalance0 txns) as [Hc Hs].
  fold curve in Hc. fold series in Hs.
  split; [apply passes_true|].
  split; [exact Hc|]. split; [exact Hs|].
  split.
  { intros st t Hm. apply guards_None in Hm. unfold curveStep.
    rewrite Hm. reflexivity. }
  split.
  { intros st t Hm. apply guards_None in Hm. unfold pnlStep.
    rewrite Hm. reflexivity. }
  split.
  { intros Ho. rewrite Hc. apply ordered_filter. assumption. }
  split.
  { intros Hall.
    rewrite <- (length_map date curve), <- (length_map pnl_date series).
    rewrite Hc, Hs, filter_all_pass by assumption.
    split; apply omap_length_all; assumption. }
  intros nowT sb Hne. unfold equityTimeSeriesOf.
  destruct txns; [contradiction|reflexivity].
Qed.

Lemma equity_point_emission_witness :
  let txns := map lean sampleLog in
  StronglySorted Z.le (map date (points (curveLoop (ofInt 100000) txns))) /\
  length (points (curveLoop (ofInt 100000) txns)) = 3%nat /\
  curveStep (curveInit 0) (mkLean "X" "HOLD" 1 1 (Some 1) (Some 6%Z))
  = curveInit 0.
Proof.
  destruct (equity_point_emission (ofInt 100000) (map lean sampleLog))
    as (_ & _ & _ & Hskip & _ & Ho & Hn & _).
  split; [|split].
  - apply Ho. unfold ordered.
    change (StronglySorted Z.le [1; 2; 3]%Z). repeat constructor; lia.
  - apply Hn.
    repeat (apply List.Forall_cons; [apply passes_true; reflexivity|]).
    apply List.Forall_nil.
  - apply Hskip. right; right. split; discriminate.
Defined.

(** C9 (synthetic point).  The single synthetic point (timestamp now,
    equity the starting balance; P&L zero in the route) is returned exactly
    for the empty log.  For a non-empty log the builder returns one point
    per document that passes the guards and nothing else, so a non-empty
    log of malformed documents only yields the empty sequence. *)
Theorem synthetic_point_only_for_empty_log (nowT : Z) (sb : option Qc) :
  equityTimeSeriesOf nowT sb [] = [mkPoint nowT (default (ofInt 100000) sb)] /\
  pnlSeriesOf nowT sb [] = [mkPnL nowT 0] /\
  (forall txns, txns <> [] ->
     map date (equityTimeSeriesOf nowT sb txns)
     = omap l_createdAt (List.filter passes txns) /\
     map pnl_date (pnlSeriesOf nowT sb txns)
     = omap l_createdAt (List.filter passes txns)) /\
  (forall txns, txns <> [] -> Forall malformed txns ->
     equityTimeSeriesOf nowT sb txns = [] /\ pnlSeriesOf nowT sb txns = []).
Proof.
  split; [reflexivity|]. split; [reflexivity|].
  assert (Hdates : forall txns, txns <> [] ->
     map date (equityTimeSeriesOf nowT sb txns)
     = omap l_createdAt (List.filter passes txns) /\
     map pnl_date (pnlSeriesOf nowT sb txns)
     = omap l_createdAt (List.filter passes txns)).
  { intros txns Hne.
    destruct (equity_curve_dates (default (ofInt 100000) sb) txns) as [Hc Hs].
    unfold equityTimeSeriesOf, pnlSeriesOf.
    destruct txns; [contradiction|]. split; assumption. }
  split; [exact Hdates|].
  intros txns Hne Hall. destruct (Hdates txns Hne) as [Hc Hs].
  rewrite filter_none_pass in Hc, Hs by assumption. simpl in Hc, Hs.
  split; [eapply map_eq_nil; exact Hc | eapply map_eq_nil; exact Hs].
Qed.

Lemma synthetic_point_only_for_empty_log_witness :
  equityTimeSeriesOf 7 None sampleBadLog = [] /\
  pnlSeriesOf 7 None sampleBadLog = [].
Proof.
  destruct (synthetic_point_only_for_empty_log 7 None) as (_ & _ & _ & H).
  apply H; [discriminate|].
  repeat (apply List.Forall_cons; [apply guards_None; reflexivity|]).
  apply List.Forall_nil.
Defined.

(** ** The insertion-ordered map *)

Section JsMapFacts.
Context {K V : Type} `{EqDecision K}.
Implicit Types (m : JsMap.t K V) (k : K) (v : V).

Lemma get_set_eq m k v : JsMap.get k (JsMap.set k v m) = Some v.
Proof.
  induction m as [|[k' v'] m IH]; simpl.
  - rewrite decide_True by reflexivity. reflexivity.
  - destruct (decide (k = k')) as [->|Hne]; simpl.
    + rewrite decide_True by reflexivity. reflexivity.
    + rewrite decide_False by assumption. exact IH.
Qed.

Lemma get_set_ne m k k' v :
  k <> k' -> JsMap.get k' (JsMap.set k v m) = JsMap.get k' m.
Proof.
  intros Hne. induction m as [|[k2 v2] m IH]; simpl.
  - rewrite decide_False by congruence. reflexivity.
  - destruct (decide (k = k2)) as [->|Hne2]; simpl.
    + rewrite !decide_False by congruence. reflexivity.
    + destruct (decide (k' = k2)); [reflexivity|exact IH].
Qed.

Lemma get_delete_eq m k : JsMap.get k (JsMap.delete k m) = None.
Proof.
  induction m as [|[k' v'] m IH]; simpl; [reflexivity|].
  destruct (decide (k = k')) as [->|Hne]; simpl; [exact IH|].
  rewrite decide_False by assumption. exact IH.
Qed.

Lemma get_delete_ne m k k' :
  k <> k' -> JsMap.get k' (JsMap.delete k m) = JsMap.get k' m.
Proof.
  intros Hne. induction m as [|[k2 v2] m IH]; simpl; [reflexivity|].
  destruct (decide (k = k2)) as [->|Hne2]; simpl.
  - rewrite decide_False by congruence. exact IH.
  - destruct (decide (k' = k2)); [reflexivity|exact IH].
Qed.

Lemma has_get m k : JsMap.has k m = true <-> is_Some (JsMap.get k m).
Proof.
  unfold JsMap.has. destruct (JsMap.get k m); split; intros H;
    try reflexivity; try discriminate; eauto.
  destruct H; discriminate.
Qed.
End JsMapFacts.

(** ** C5: the position replayer *)

Lemma replayStep_sell_closes st txn state :
  type txn = "SELL" ->
  JsMap.get (symbol txn) st = Some state ->
  st_quantity state - quantity txn <= 0 ->
  JsMap.get (symbol txn) (replayStep st txn) = None.
Proof.
  intros Hty Hget Hle. unfold replayStep. rewrite Hty. simpl.
  rewrite Hget. rewrite decide_True by assumption. apply get_delete_eq.
Qed.

Lemma replayStep_buy_fresh st txn :
  type txn = "BUY" ->
  JsMap.get (symbol txn) st = None ->
  exists state,
    JsMap.get (symbol txn) (replayStep st txn) = Some state /\
    st_quantity state = quantity txn /\
    st_totalCost state = totalAmount txn.
Proof.
  intros Hty Hget. unfold replayStep. rewrite Hty. simpl.
  unfold JsMap.has. rewrite Hget. rewrite get_set_eq.
  eexists. rewrite get_set_eq. split; [reflexivity|]. simpl. split; ring.
Qed.

(** C5 (full close resets cost basis).  In the replay loop a SELL that
    brings the running quantity of its symbol to zero or below removes the
    symbol's state; a BUY of a symbol without state starts from that BUY's
    own quantity and amount, so its average cost is that BUY's price.
    BUY 10 at 10, SELL 10 at 15, BUY 5 at 20 replays to the single
    position of net quantity 5 and average cost 20. *)
Theorem full_close_resets_cost_basis :
  (forall st txn state,
     type txn = "SELL" ->
     JsMap.get (symbol txn) st = Some state ->
     st_quantity state - quantity txn <= 0 ->
     JsMap.get (symbol txn) (replayStep st txn) = None) /\
  (forall st txn,
     type txn = "BUY" ->
     JsMap.get (symbol txn) st = None ->
     exists state,
       JsMap.get (symbol txn) (replayStep st txn) = Some state /\
       st_quantity state = quantity txn /\
       st_totalCost state = totalAmount txn) /\
  activeSymbolsOf (replay sampleLog)
  = [mkActiveSymbol "X" (ofInt 5) (ofInt 20)].
Proof.
  split; [exact replayStep_sell_closes|].
  split; [exact replayStep_buy_fresh|].
  vm_compute. do 2 f_equal. apply Qc_is_canon. reflexivity.
Qed.

Lemma full_close_resets_cost_basis_witness :
  JsMap.get "X"
    (replayStep (replay (take 1 sampleLog))
       (mkTransaction "b" "u1" "X" "SELL" (ofInt 10) (ofInt 15) (ofInt 150) 2))
  = None.
Proof.
  destruct full_close_resets_cost_basis as (H & _).
  eapply (H (replay (take 1 sampleLog))
            (mkTransaction "b" "u1" "X" "SELL" (ofInt 10) (ofInt 15)
               (ofInt 150) 2));
    [reflexivity | reflexivity | qc_decide].
Defined.

(** ** Rounding with [toFixed] *)


Lemma this_ofInt z : (this (ofInt z) == inject_Z z)%Q.
Proof. unfold ofInt. apply this_Q2Qc. Qed.

Lemma this_ofFrac n d : (this (ofFrac n d) == n # d)%Q.
Proof. unfold ofFrac. apply this_Q2Qc. Qed.









Lemma toFixed_zero d : toFixed d 0 = 0.
Proof.
  unfold toFixed. rewrite decide_False by (intros H; inversion H).
  assert (E : toFixedAbs d 0 = 0%Z).
  { unfold toFixedAbs. rewrite this_ofFrac.
    change (this 0) with 0%Q.
    assert (E : (0 * this (ofInt (pow10 d)) + (1 # 2) == 1 # 2)%Q) by ring.
    rewrite E. reflexivity. }
  rewrite E. apply Qc_is_canon. rewrite this_div, !this_ofInt.
  change (this 0) with 0%Q. unfold Qdiv. ring.
Qed.




(** ** C6, C7: the snapshot *)

Section SnapshotFields.
Variables (Math_pow : Qc -> Qc -> Qc) (Math_sqrt : Qc -> Qc).
Variables (sectorOf : string -> string) (p : Portfolio)
          (pts : list EquityPoint).

Let snap := snapshotOf Math_pow Math_sqrt sectorOf p pts.

Lemma snapshot_fields :
  ps_totalEquity snap = totalEquity p /\
  totalReturnPct snap = toFixed 2 (totalReturnPercent p) /\
  cashAllocationPct snap = sharePct (totalEquity p) (pf_balance p) /\
  largestPosition snap = largestPositionOf (totalEquity p) (positions p) /\
  concentrationRiskLevel snap
  = riskLevelOf (default 0 (lp_allocationPct <$> largestPosition snap)) /\
  sectorBreakdown snap
  = sectorBreakdownOf sectorOf (totalEquity p) (positions p) /\
  volatility snap
  = toFixed 4 (calculateVolatility Math_pow Math_sqrt
                 (calculateDailyReturns pts)) /\
  sharpeRatio snap
  = toFixed 4 (calculateSharpe (annualisedReturnOf Math_pow pts)
                 (calculateVolatility Math_pow Math_sqrt
                    (calculateDailyReturns pts))
                 defaultRiskFreeRate) /\
  (topGainer snap, topLoser snap) = topGainerLoserOf (positions p).
Proof.
  subst snap. unfold snapshotOf.
  destruct (topGainerLoserOf (positions p)) as [g l]. simpl.
  repeat split; reflexivity.
Qed.
End SnapshotFields.











(** ** Sorting is a rearrangement *)

Section SortFacts.
Context {A : Type} (le : A -> A -> bool).

Lemma insertSorted_Permutation x l :
  Permutation (insertSorted le x l) (x :: l).
Proof.
  induction l as [|y l IH]; simpl; [reflexivity|].
  destruct (le x y); [reflexivity|].
  rewrite IH. apply perm_swap.
Qed.

Lemma stableSort_Permutation l : Permutation (stableSort le l) l.
Proof.
  induction l as [|x l IH]; simpl; [reflexivity|].
  rewrite insertSorted_Permutation, IH. reflexivity.
Qed.

Lemma stableSort_In x l : In x (stableSort le l) <-> In x l.
Proof.
  split; apply Permutation_in;
    [|symmetry]; apply stableSort_Permutation.
Qed.

Lemma stableSort_length l : length (stableSort le l) = length l.
Proof. apply Permutation_length, stableSort_Permutation. Qed.
End SortFacts.





(** ** C10: the annualised return behind the Sharpe ratio *)

Lemma curveStep_points_grow st t :
  exists more, points (curveStep st t) = points st ++ more.
Proof.
  unfold curveStep. destruct (guards t) as [[d a]|].
  - destruct (applyTxn (cash st) (holdings st) t a) as [c h]. simpl. eauto.
  - exists []. rewrite app_nil_r. reflexivity.
Qed.

Lemma curveLoop_points_grow txns : forall st,
  exists more, points (fold_left curveStep txns st) = points st ++ more.
Proof.
  induction txns as [|t txns IH]; intros st; simpl.
  - exists []. rewrite app_nil_r. reflexivity.
  - destruct (IH (curveStep st t)) as [m2 H2].
    destruct (curveStep_points_grow st t) as [m1 H1].
    exists (m1 ++ m2). rewrite H2, H1, app_assoc. reflexivity.
Qed.

Lemma curveLoop_skip pre : forall st,
  Forall malformed pre -> fold_left curveStep pre st = st.
Proof.
  induction pre as [|t pre IH]; intros st H; simpl; [reflexivity|].
  apply Forall_cons_1 in H as [Ht Hpre].
  apply guards_None in Ht. unfold curveStep at 2. rewrite Ht.
  apply IH. assumption.
Qed.

(** The first point of the curve is the point emitted for the first
    document that passes the guards, applied to the initial state. *)
Lemma curve_first_point sb pre t rest :
  Forall malformed pre -> ~ malformed t ->
  head (points (curveLoop sb (pre ++ t :: rest)))
  = head (points (curveStep (curveInit sb) t)) /\
  is_Some (head (points (curveStep (curveInit sb) t))).
Proof.
  intros Hpre Ht. unfold curveLoop.
  rewrite fold_left_app, (curveLoop_skip pre) by assumption. simpl.
  destruct (curveLoop_points_grow rest (curveStep (curveInit sb) t))
    as [more Hmore].
  rewrite Hmore.
  apply passes_true in Ht. unfold passes in Ht. unfold curveStep.
  destruct (guards t) as [[d a]|]; [|discriminate].
  destruct (applyTxn _ _ t a) as [c h]. simpl. eauto.
Qed.

(** C10 (annualised return).  The return annualised for the Sharpe ratio
    is taken from the curve: total return = (last equity - first equity) /
    first equity, first and last being the curve's end points (0 for an
    empty curve) and the result 0 unless the first equity is positive;
    annualised return = pow (1 + total return) (252 / numDays) - 1 with
    numDays the number of daily returns, and 0 when there is none.  The
    curve's first point is the one emitted for the first well-formed
    document.  The snapshot's [totalReturnPct] is instead the rounded
    portfolio return against the starting balance, and the two differ on
    the sample account. *)
Theorem annualised_return_from_curve (Math_pow : Qc -> Qc -> Qc)
    (Math_sqrt : Qc -> Qc) (sectorOf : string -> string)
    (quote : string -> StockData) (user : User) (txns : list Transaction)
    (pts : list EquityPoint) :
  let firstEquity := default 0 (equity <$> head pts) in
  let lastEquity := default 0 (equity <$> last pts) in
  let totalReturn0 :=
    if decide (0 < firstEquity)
    then (lastEquity - firstEquity) / firstEquity else 0 in
  let numDays := length (calculateDailyReturns pts) in
  let portfolio := portfolioOf quote user txns in
  let snap := snapshotOf Math_pow Math_sqrt sectorOf portfolio pts in
  (firstEquity <= 0 -> curveTotalReturn pts = 0) /\
  (numDays = 0%nat -> annualisedReturnOf Math_pow pts = 0) /\
  ((0 < numDays)%nat ->
   annualisedReturnOf Math_pow pts
   = Math_pow (1 + totalReturn0) (ofInt 252 / ofInt (Z.of_nat numDays)) - 1) /\
  sharpeRatio snap
  = toFixed 4 (calculateSharpe (annualisedReturnOf Math_pow pts)
                 (calculateVolatility Math_pow Math_sqrt
                    (calculateDailyReturns pts))
                 defaultRiskFreeRate) /\
  (forall sb pre t rest,
     Forall malformed pre -> ~ malformed t ->
     head (points (curveLoop sb (pre ++ t :: rest)))
     = head (points (curveStep (curveInit sb) t)) /\
     is_Some (head (points (curveStep (curveInit sb) t)))) /\
  totalReturnPct snap
  = toFixed 2
      (if decide (0 < startingBalanceOr user)
       then (totalEquity portfolio - startingBalanceOr user)
            / startingBalanceOr user * ofInt 100
       else 0) /\
  curveTotalReturn driftCurve * ofInt 100 = ofFrac 1 10 /\
  totalReturnPercent driftPortfolio = ofFrac 21 100.
Proof.
  intros firstEquity lastEquity totalReturn0 numDays portfolio snap.
  destruct (snapshot_fields Math_pow Math_sqrt sectorOf portfolio pts)
    as (_ & Hret & _ & _ & _ & _ & _ & Hsh & _).
  fold snap in Hret, Hsh.
  split.
  { intros Hle. unfold curveTotalReturn. fold firstEquity.
    rewrite decide_False by (apply Qcle_not_lt; assumption). reflexivity. }
  split.
  { intros H0. unfold annualisedReturnOf. fold numDays. rewrite H0.
    reflexivity. }
  split.
  { intros Hpos. unfold annualisedReturnOf. fold numDays.
    rewrite decide_True by assumption. reflexivity. }
  split; [exact Hsh|].
  split; [exact curve_first_point|].
  split; [exact Hret|].
  split; apply Qc_is_canon; reflexivity.
Qed.

Lemma annualised_return_from_curve_witness :
  annualisedReturnOf (fun x y => x * y) driftCurve
  = (1 + ofFrac 1 1000) * (ofInt 252 / ofInt 1) - 1.
Proof.
  destruct (annualised_return_from_curve (fun x y => x * y) (fun x => x)
              (fun _ => "Unknown") (quoteAt (ofInt 30)) driftUser driftLog
              driftCurve) as (_ & _ & H & _).
  rewrite H by (vm_compute; lia).
  apply Qc_is_canon. reflexivity.
Defined.

(** ** Further properties of the trade engine *)

(** What [executeTrade] does once its parameters are valid, the price is
    fetched and the account is found. *)
Lemma executeTrade_valid env db uid0 sym ty q p uid user :
  truthyStr uid0 = true ->
  truthyStr (trim (toUpperCase sym)) = true ->
  1 <= q ->
  fetchedPrice (getStockDetails env (trim (toUpperCase sym))) = Some p ->
  mkObjectId env uid0 = Some uid ->
  users db !! uid = Some user ->
  let upperSymbol := trim (toUpperCase sym) in
  let commit (b : Qc) : Db * TradeResult :=
    if decide (b < 0) then (db, Failure (ValidationError "balance" b))
    else (mkDb (<[uid := mkUser b (startingBalance user)]> (users db))
            (transactions db ++
               [mkTransaction (newId env) uid upperSymbol ty q p (p * q)
                              (now env)]),
          Success (mkTradeData (newId env) upperSymbol ty q p (p * q) b)) in
  executeTrade env db uid0 sym ty q
  = if String.eqb ty "BUY" then
      if decide (balance user < p * q) then (db, Failure InsufficientBalance)
      else commit (balance user - p * q)
    else if String.eqb ty "SELL" then
      if decide (netQuantity (findByUserSymbol uid upperSymbol
                                               (transactions db)) < q)
      then (db, Failure InsufficientHoldings)
      else commit (balance user + p * q)
    else (db, Failure InvalidType).
Proof.
  intros Hid Hsym Hq Hp Ho Hu upperSymbol commit.
  unfold executeTrade, tradeBody.
  rewrite Hid, Hsym. simpl.
  rewrite bool_decide_eq_false_2 by (apply Qcle_not_lt; assumption).
  rewrite Hp, Ho, Hu. simpl. fold upperSymbol. subst commit. simpl.
  destruct (String.eqb ty "BUY").
  - destruct (decide (balance user < p * q)); [reflexivity|]. simpl.
    destruct (decide (balance user - p * q < 0)); reflexivity.
  - destruct (String.eqb ty "SELL"); [|reflexivity].
    destruct (decide (netQuantity _ < q)); [reflexivity|]. simpl.
    destruct (decide (balance user + p * q < 0)); reflexivity.
Qed.

(** X1.  Parameters that fail the first check are rejected whatever the price
    service, the clock and the database hold. *)
Theorem invalid_parameters_rejected (env : Env) (db : Db)
    (userId0 symbol0 type0 : string) (quantity0 : Qc) :
  userId0 = EmptyString \/ normalizeSymbol symbol0 = EmptyString \/
  quantity0 < 1 ->
  executeTrade env db userId0 symbol0 type0 quantity0
  = (db, Failure InvalidParameters).
Proof.
  intros H. unfold executeTrade, tradeBody, normalizeSymbol in *.
  destruct H as [->|[->|H]]; simpl.
  - reflexivity.
  - rewrite orb_true_r. reflexivity.
  - rewrite (bool_decide_eq_true_2 _ H), !orb_true_r. reflexivity.
Qed.

Lemma invalid_parameters_rejected_witness :
  executeTrade (sampleEnv (ofInt 150) "t1" 1000) sampleDb "u1" "   " "BUY"
               (ofInt 5)
  = (sampleDb, Failure InvalidParameters).
Proof.
  apply invalid_parameters_rejected. right; left. reflexivity.
Defined.

Lemma findByUserSymbol_app uid sym l1 l2 :
  findByUserSymbol uid sym (l1 ++ l2)
  = findByUserSymbol uid sym l1 ++ findByUserSymbol uid sym l2.
Proof. unfold findByUserSymbol. apply filter_app. Qed.

Lemma findByUserSymbol_single uid sym t :
  findByUserSymbol uid sym [t]
  = if decide (userId t = uid /\ symbol t = sym) then [t] else [].
Proof. unfold findByUserSymbol. rewrite filter_cons, filter_nil. reflexivity. Qed.

Lemma netQuantity_app l1 l2 :
  netQuantity (l1 ++ l2) = netQuantity l1 + netQuantity l2.
Proof.
  rewrite !netQuantity_signed_sum, map_app, sumQc_app. reflexivity.
Qed.

Lemma netQuantity_single t : netQuantity [t] = signedQuantity t.
Proof. rewrite netQuantity_signed_sum. unfold sumQc. simpl. ring. Qed.

Lemma netQuantity_nil : netQuantity [] = 0.
Proof. reflexivity. Qed.



Lemma executeTrade_keeps_balances env db uid0 sym ty q :
  balancesNonNegative db ->
  balancesNonNegative (fst (executeTrade env db uid0 sym ty q)).
Proof.
  intros Hinv. unfold executeTrade.
  destruct (tradeBody env db uid0 sym ty q) as [e|[[uid u'] t]] eqn:Hbody;
    simpl; [assumption|].
  apply tradeBody_commit in Hbody as (user & p & _ & _ & _ & _ & _ & Hnn & _).
  intros uid2 u2. simpl. destruct (decide (uid = uid2)) as [->|Hne].
  - rewrite lookup_insert_eq. intros [= <-]. apply Qcnot_lt_le. assumption.
  - rewrite lookup_insert_ne by assumption. apply Hinv.
Qed.

Lemma executeTrade_keeps_holdings env db uid0 sym ty q :
  holdingsNonNegative db ->
  holdingsNonNegative (fst (executeTrade env db uid0 sym ty q)).
Proof.
  intros Hinv. unfold executeTrade.
  destruct (tradeBody env db uid0 sym ty q) as [e|[[uid u'] t]] eqn:Hbody;
    simpl; [assumption|].
  apply tradeBody_commit in Hbody
    as (user & p & _ & _ & _ & Ht & _ & _ & Hq & Hcase).
  intros uid2 sym2. simpl.
  rewrite findByUserSymbol_app, netQuantity_app, findByUserSymbol_single.
  specialize (Hinv uid2 sym2).
  destruct (decide (userId t = uid2 /\ symbol t = sym2)) as [[Hu Hs]|Hno].
  - rewrite netQuantity_single. unfold signedQuantity.
    assert (Hsym : sym2 = trim (toUpperCase sym)) by (subst t; auto).
    assert (Huid : uid2 = uid) by (subst t; auto).
    destruct Hcase as [(Hty & _)|(Hty & Hnet & _)]; subst t ty; simpl.
    + clear - Hinv Hq. to_Q. change (this 0) with 0%Q in *.
      change (this 1) with 1%Q in *. lra.
    + rewrite Hsym, Huid. clear - Hnet.
      set (n := netQuantity _) in *. to_Q. change (this 0) with 0%Q in *. lra.
  - rewrite netQuantity_nil.
    replace (netQuantity (findByUserSymbol uid2 sym2 (transactions db)) + 0)
      with (netQuantity (findByUserSymbol uid2 sym2 (transactions db)))
      by ring.
    assumption.
Qed.

(** X3.  However many requests are run, by whomever and at whatever prices, no
    balance goes below zero and no user ever holds a negative quantity of
    a symbol. *)
Theorem no_overdraft_no_short_position (db : Db) (rs : list Request) :
  balancesNonNegative db -> holdingsNonNegative db ->
  balancesNonNegative (runTrades db rs) /\ holdingsNonNegative (runTrades db rs).
Proof.
  revert db. induction rs as [|r rs IH]; intros db Hb Hh; simpl; [auto|].
  apply IH; unfold runTrade.
  - apply executeTrade_keeps_balances. assumption.
  - apply executeTrade_keeps_holdings. assumption.
Qed.

Lemma no_overdraft_no_short_position_witness :
  balancesNonNegative (runTrades sampleDb [sampleBuy; sampleSell; sampleSell; sampleSell])
  /\ holdingsNonNegative (runTrades sampleDb [sampleBuy; sampleSell; sampleSell; sampleSell]).
Proof.
  apply no_overdraft_no_short_position.
  - intros uid u. unfold sampleDb. simpl.
    destruct (decide (uid = "u1")) as [->|Hne].
    + rewrite lookup_singleton_eq. intros [= <-]. qc_decide.
    + rewrite lookup_singleton_ne by congruence. discriminate.
  - intros uid sym. simpl. qc_decide.
Defined.

Lemma repeated_buys_fail env db uid0 sym q p uid user n :
  truthyStr uid0 = true ->
  truthyStr (trim (toUpperCase sym)) = true ->
  1 <= q ->
  fetchedPrice (getStockDetails env (trim (toUpperCase sym))) = Some p ->
  mkObjectId env uid0 = Some uid ->
  users db !! uid = Some user ->
  balance user < p * q ->
  runTradesLog db (replicate n (mkRequest env uid0 sym "BUY" q))
  = (db, replicate n (Failure InsufficientBalance)).
Proof.
  intros Hid Hsym Hq Hp Ho Hu Hlt. induction n as [|n IH]; [reflexivity|].
  simpl. unfold runTrade at 1. simpl.
  rewrite (executeTrade_valid env db uid0 sym "BUY" q p uid user)
    by assumption.
  simpl. rewrite decide_True by assumption. rewrite IH. reflexivity.
Qed.

(** X4.  Run one after the other, [S n] identical BUY requests against a
    balance that covers exactly one of them give one success followed by
    [n] "Insufficient balance" failures; the account is debited once and
    the log grows by one transaction. *)
Theorem sequential_buys_one_success (env : Env) (db : Db)
    (userId0 symbol0 : string) (quantity0 price0 : Qc) (uid : ObjectId)
    (user : User) (n : nat) :
  truthyStr userId0 = true ->
  truthyStr (trim (toUpperCase symbol0)) = true ->
  1 <= quantity0 ->
  fetchedPrice (getStockDetails env (trim (toUpperCase symbol0))) = Some price0 ->
  mkObjectId env userId0 = Some uid ->
  users db !! uid = Some user ->
  price0 * quantity0 <= balance user ->
  balance user < price0 * quantity0 + price0 * quantity0 ->
  exists db' d,
    runTradesLog db (replicate (S n) (mkRequest env userId0 symbol0 "BUY" quantity0))
    = (db', Success d :: replicate n (Failure InsufficientBalance)) /\
    users db' !! uid
    = Some (mkUser (balance user - price0 * quantity0) (startingBalance user)) /\
    length (transactions db') = S (length (transactions db)).
Proof.
  intros Hid Hsym Hq Hp Ho Hu Hcover Honce.
  simpl. unfold runTrade at 1. simpl.
  rewrite (executeTrade_valid env db userId0 symbol0 "BUY" quantity0 price0
             uid user) by assumption.
  simpl.
  rewrite decide_False by (apply Qcle_not_lt; assumption).
  rewrite decide_False
    by (clear - Hcover; to_Q; change (this 0) with 0%Q; lra).
  set (db1 := mkDb _ _).
  rewrite (repeated_buys_fail env db1 userId0 symbol0 quantity0 price0 uid
             (mkUser (balance user - price0 * quantity0)
                     (startingBalance user)));
    try assumption.
  - eexists _, _. split; [reflexivity|]. subst db1. simpl. split.
    + apply lookup_insert_eq.
    + rewrite length_app. simpl. lia.
  - subst db1. simpl. apply lookup_insert_eq.
  - simpl. clear - Honce. to_Q. lra.
Qed.

Lemma sequential_buys_one_success_witness :
  exists db' d,
    runTradesLog sampleDb
      (replicate 4 (mkRequest (sampleEnv (ofInt 150) "t1" 1000) "u1" "aapl"
                              "BUY" (ofInt 400)))
    = (db', Success d :: replicate 3 (Failure InsufficientBalance)) /\
    users db' !! "u1"
    = Some (mkUser (ofInt 100000 - ofInt 150 * ofInt 400)
                   (Some (ofInt 100000))) /\
    length (transactions db') = 1%nat.
Proof.
  apply (sequential_buys_one_success (sampleEnv (ofInt 150) "t1" 1000)
           sampleDb "u1" "aapl" (ofInt 400) (ofInt 150) "u1" sampleUser 3);
    first [reflexivity | qc_decide].
Defined.

(** ** Symbol normalisation *)

Lemma upperChar_idem c : upperChar (upperChar c) = upperChar c.
Proof. destruct c as [[] [] [] [] [] [] [] []]; reflexivity. Qed.

Lemma isSpace_upperChar c : isSpace (upperChar c) = isSpace c.
Proof. destruct c as [[] [] [] [] [] [] [] []]; reflexivity. Qed.

Lemma toUpperCase_idem s : toUpperCase (toUpperCase s) = toUpperCase s.
Proof.
  induction s as [|c s IH]; simpl; [reflexivity|].
  rewrite upperChar_idem, IH. reflexivity.
Qed.

Lemma trimStart_list s :
  list_ascii_of_string (trimStart s) = dropSpaces (list_ascii_of_string s).
Proof.
  induction s as [|c s IH]; simpl; [reflexivity|].
  destruct (isSpace c); [exact IH|reflexivity].
Qed.

Lemma trimStart_of_list l :
  trimStart (string_of_list_ascii l) = string_of_list_ascii (dropSpaces l).
Proof.
  induction l as [|c l IH]; simpl; [reflexivity|].
  destruct (isSpace c); [exact IH|reflexivity].
Qed.

Lemma trim_list s :
  list_ascii_of_string (trim s)
  = List.rev (dropSpaces (List.rev (dropSpaces (list_ascii_of_string s)))).
Proof.
  unfold trim, trimEnd, reverse_string.
  rewrite list_ascii_of_string_of_list_ascii, trimStart_of_list,
    list_ascii_of_string_of_list_ascii, trimStart_list.
  reflexivity.
Qed.

Lemma dropSpaces_idem l : dropSpaces (dropSpaces l) = dropSpaces l.
Proof.
  induction l as [|c l IH]; simpl; [reflexivity|].
  destruct (isSpace c) eqn:E; [exact IH|]. simpl. rewrite E. reflexivity.
Qed.

Lemma dropSpaces_snoc l c :
  isSpace c = false -> dropSpaces (l ++ [c]) = dropSpaces l ++ [c].
Proof.
  intros Hc. induction l as [|x l IH]; simpl.
  - rewrite Hc. reflexivity.
  - destruct (isSpace x); [exact IH|reflexivity].
Qed.

(** Removing trailing spaces keeps a list free of leading spaces that way. *)
Lemma dropSpaces_trimmed_end l :
  dropSpaces l = l ->
  dropSpaces (List.rev (dropSpaces (List.rev l)))
  = List.rev (dropSpaces (List.rev l)).
Proof.
  destruct l as [|c l]; [reflexivity|]. simpl.
  destruct (isSpace c) eqn:E.
  - intros H. exfalso.
    assert (Hlen : (length (dropSpaces l) <= length l)%nat).
    { clear. induction l as [|x l IH]; simpl; [lia|].
      destruct (isSpace x); simpl; lia. }
    rewrite H in Hlen. simpl in Hlen. lia.
  - intros _. rewrite dropSpaces_snoc by assumption.
    rewrite rev_app_distr. simpl. rewrite E. reflexivity.
Qed.

Lemma toUpperCase_list s :
  list_ascii_of_string (toUpperCase s)
  = map upperChar (list_ascii_of_string s).
Proof. induction s as [|c s IH]; simpl; [reflexivity|]. rewrite IH. reflexivity. Qed.

Lemma dropSpaces_map_upper l :
  dropSpaces (map upperChar l) = map upperChar (dropSpaces l).
Proof.
  induction l as [|c l IH]; simpl; [reflexivity|].
  rewrite isSpace_upperChar. destruct (isSpace c); [exact IH|reflexivity].
Qed.

Lemma list_ascii_inj s1 s2 :
  list_ascii_of_string s1 = list_ascii_of_string s2 -> s1 = s2.
Proof.
  intros H. rewrite <- (string_of_list_ascii_of_string s1),
    <- (string_of_list_ascii_of_string s2), H. reflexivity.
Qed.

(** X5.  The normalised symbol is a fixed point of [toUpperCase] and of
    [trim]: the schema setters applied on [Transaction.create] store it
    unchanged, and the SELL query looks up exactly what was stored. *)
Theorem normalizeSymbol_fixed (s : string) :
  toUpperCase (normalizeSymbol s) = normalizeSymbol s /\
  trim (normalizeSymbol s) = normalizeSymbol s /\
  normalizeSymbol (normalizeSymbol s) = normalizeSymbol s.
Proof.
  assert (Hup : toUpperCase (normalizeSymbol s) = normalizeSymbol s).
  { apply list_ascii_inj. unfold normalizeSymbol.
    rewrite toUpperCase_list, !trim_list, toUpperCase_list.
    rewrite map_rev, <- dropSpaces_map_upper, map_rev,
      <- dropSpaces_map_upper, map_map.
    f_equal. f_equal. f_equal. f_equal.
    apply map_ext. intros c. apply upperChar_idem. }
  assert (Htr : trim (normalizeSymbol s) = normalizeSymbol s).
  { apply list_ascii_inj. unfold normalizeSymbol.
    rewrite trim_list. rewrite trim_list.
    set (l := dropSpaces (list_ascii_of_string (toUpperCase s))).
    assert (Hl : dropSpaces l = l) by apply dropSpaces_idem.
    rewrite (dropSpaces_trimmed_end l Hl).
    rewrite rev_involutive, dropSpaces_idem. reflexivity. }
  split; [exact Hup|]. split; [exact Htr|].
  unfold normalizeSymbol at 1. rewrite Hup. exact Htr.
Qed.

(** ** The trade route *)

Lemma executeTrade_log_length env db uid0 sym ty q :
  let '(db', res) := executeTrade env db uid0 sym ty q in
  match res with
  | Success _ => length (transactions db') = S (length (transactions db))
  | Failure _ => db' = db
  end.
Proof.
  unfold executeTrade.
  destruct (tradeBody env db uid0 sym ty q) as [e|[[uid u] t]];
    [reflexivity|].
  simpl. rewrite length_app. simpl. lia.
Qed.

Lemma executeTrade_typed env db uid0 sym ty q :
  ty = "BUY" \/ ty = "SELL" ->
  snd (executeTrade env db uid0 sym ty q) <> Failure InvalidType.
Proof.
  intros Hty. unfold executeTrade, tradeBody.
  destruct (negb (truthyStr uid0) || _ || _); [discriminate|].
  destruct (fetchedPrice _); [|discriminate].
  destruct (mkObjectId env uid0); [|discriminate].
  destruct (users db !! o); [|discriminate].
  destruct Hty as [-> | ->]; simpl.
  - destruct (decide (balance u < q0 * q)); [discriminate|].
    destruct (decide (_ < 0)); discriminate.
  - destruct (decide (netQuantity _ < q)); [discriminate|].
    destruct (decide (_ < 0)); discriminate.
Qed.

Ltac route_done :=
  simpl; repeat split; try (intros [? ?]); intros;
  first [ discriminate | assumption | reflexivity | congruence | eauto; fail
        | simpl; tauto | lia ].

(** X6.  The route answers 200 exactly when the trade committed, and then the
    log has grown by one transaction; with any other status the database
    is the one it was given.  Without a session the answer is 401.  The
    engine's "Invalid transaction type" is never the engine's answer to
    the route, which has checked the type itself. *)
Theorem trade_route_status (env : Env) (db : Db) (sessionUser : option string)
    (parsed : string + TradeBody) :
  let db' := fst (tradePOST env db sessionUser parsed) in
  let resp := snd (tradePOST env db sessionUser parsed) in
  (status resp = 200%nat <-> exists d, body resp = Success d) /\
  (status resp = 200%nat ->
   length (transactions db') = S (length (transactions db))) /\
  (status resp <> 200%nat -> db' = db) /\
  (sessionUser = None -> status resp = 401%nat) /\
  (status resp <> 500%nat -> body resp <> Failure InvalidType) /\
  In (status resp) [200; 400; 401; 500]%nat.
Proof.
  unfold tradePOST.
  destruct sessionUser as [uid0|]; [|route_done].
  destruct (negb (truthyStr uid0)); [route_done|].
  destruct parsed as [message|b]; [route_done|].
  destruct (b_symbol b) as [| |?|?|symbol0|]; try route_done.
  destruct (negb (truthyStr symbol0)); [route_done|].
  destruct (b_type b) as [| |?|?|type0|]; try route_done.
  destruct (negb (String.eqb type0 "BUY") && negb (String.eqb type0 "SELL"))
    eqn:Hty; [route_done|].
  destruct (b_quantity b) as [| |?|quantity0|?|]; try route_done.
  destruct (negb (truthyNum quantity0) || bool_decide (quantity0 < 1));
    [route_done|].
  assert (Htyped : type0 = "BUY" \/ type0 = "SELL").
  { apply andb_false_iff in Hty as [H|H]; apply negb_false_iff in H;
      apply String.eqb_eq in H; auto. }
  pose proof (executeTrade_log_length env db uid0 symbol0 type0 quantity0)
    as Hlen.
  pose proof (executeTrade_typed env db uid0 symbol0 type0 quantity0 Htyped)
    as Hnot.
  destruct (executeTrade env db uid0 symbol0 type0 quantity0) as [db1 res].
  simpl in *. destruct res as [d|e]; route_done.
Qed.

Lemma trade_route_status_witness :
  status (snd (tradePOST (sampleEnv (ofInt 150) "t1" 1000) sampleDb None
                 (inr (mkTradeBody (JsString "AAPL") (JsString "BUY")
                                   (JsNumber (ofInt 1))))))
  = 401%nat.
Proof.
  destruct (trade_route_status (sampleEnv (ofInt 150) "t1" 1000) sampleDb None
              (inr (mkTradeBody (JsString "AAPL") (JsString "BUY")
                                (JsNumber (ofInt 1)))))
    as (_ & _ & _ & H & _).
  apply H. reflexivity.
Defined.

(** ** More on the insertion-ordered map *)

Section JsMapOrder.
Context {K V : Type} `{EqDecision K}.
Implicit Types (m : JsMap.t K V) (k : K) (v : V).

Lemma get_None_keys m k : JsMap.get k m = None <-> ~ In k (JsMap.keys m).
Proof.
  induction m as [|[k' v'] m IH]; simpl; [tauto|].
  destruct (decide (k = k')) as [->|Hne].
  - split; [discriminate|]. intros H. exfalso. apply H. left. reflexivity.
  - rewrite IH. split; intros H; [intros [?|?]; [congruence|tauto]|tauto].
Qed.

Lemma get_Some_In m k v : JsMap.get k m = Some v -> In (k, v) m.
Proof.
  induction m as [|[k' v'] m IH]; simpl; [discriminate|].
  destruct (decide (k = k')) as [->|Hne].
  - intros [= ->]. left. reflexivity.
  - intros H. right. apply IH. assumption.
Qed.

Lemma keys_set m k v :
  JsMap.keys (JsMap.set k v m)
  = if JsMap.has k m then JsMap.keys m else JsMap.keys m ++ [k].
Proof.
  unfold JsMap.has. induction m as [|[k' v'] m IH]; simpl; [reflexivity|].
  destruct (decide (k = k')) as [->|Hne]; simpl; [reflexivity|].
  rewrite IH. destruct (JsMap.get k m); reflexivity.
Qed.

Lemma In_set m k v e :
  In e (JsMap.set k v m) -> e = (k, v) \/ In e m.
Proof.
  induction m as [|[k' v'] m IH]; simpl.
  - intros [<-|[]]. left. reflexivity.
  - destruct (decide (k = k')) as [->|Hne]; simpl.
    + intros [<-|Hin]; [left; reflexivity|right; right; assumption].
    + intros [<-|Hin]; [right; left; reflexivity|].
      destruct (IH Hin); [left|right; right]; assumption.
Qed.

Lemma In_set_strong m k v e :
  NoDup (JsMap.keys m) ->
  In e (JsMap.set k v m) -> e = (k, v) \/ (In e m /\ fst e <> k).
Proof.
  induction m as [|[k' v'] m IH]; simpl.
  - intros _ [<-|[]]. left. reflexivity.
  - intros Hnd. apply NoDup_cons in Hnd as [Hnot Hnd].
    destruct (decide (k = k')) as [->|Hne]; simpl.
    + intros [<-|Hin]; [left; reflexivity|]. right.
      split; [right; assumption|]. intros <-. apply Hnot.
      apply list_elem_of_In. apply in_map. assumption.
    + intros [<-|Hin]; [right; split; [left; reflexivity|simpl; congruence]|].
      destruct (IH Hnd Hin) as [?|[? ?]]; [left|right; split; [right|]];
        assumption.
Qed.

Lemma In_delete m k e : In e (JsMap.delete k m) -> In e m /\ fst e <> k.
Proof.
  induction m as [|[k' v'] m IH]; simpl; [intros []|].
  destruct (decide (k = k')) as [->|Hne]; simpl.
  - intros Hin. destruct (IH Hin). split; [right|]; assumption.
  - intros [<-|Hin]; [split; [left; reflexivity|simpl; congruence]|].
    destruct (IH Hin). split; [right|]; assumption.
Qed.

Lemma NoDup_keys_set m k v :
  NoDup (JsMap.keys m) -> NoDup (JsMap.keys (JsMap.set k v m)).
Proof.
  intros Hnd. rewrite keys_set. unfold JsMap.has.
  destruct (JsMap.get k m) eqn:Hg; [assumption|].
  apply get_None_keys in Hg.
  apply NoDup_app. split; [assumption|]. split.
  - intros x Hx Hin. apply list_elem_of_singleton in Hin. subst x.
    apply Hg. apply list_elem_of_In. assumption.
  - apply NoDup_singleton.
Qed.

Lemma NoDup_keys_delete m k :
  NoDup (JsMap.keys m) -> NoDup (JsMap.keys (JsMap.delete k m)).
Proof.
  induction m as [|[k' v'] m IH]; simpl; [auto|].
  intros Hnd. apply NoDup_cons in Hnd as [Hnot Hnd].
  destruct (decide (k = k')); simpl; [auto|].
  apply NoDup_cons. split; [|auto].
  intros Hin. apply Hnot. apply list_elem_of_In in Hin.
  apply list_elem_of_In. unfold JsMap.keys in *.
  apply in_map_iff in Hin as (e & He & Hin).
  apply In_delete in Hin as [Hin _]. apply in_map_iff. eauto.
Qed.
End JsMapOrder.

(** ** Further properties of the position replayer *)

Lemma replay_snoc l t : replay (l ++ [t]) = replayStep (replay l) t.
Proof. unfold replay. rewrite fold_left_app. reflexivity. Qed.

Lemma Qc_pos_plus a b : 0 <= a -> 0 < b -> 0 < a + b.
Proof. intros. to_Q. change (this 0) with 0%Q in *. lra. Qed.

Lemma replayStep_wellformed st t :
  0 < quantity t ->
  NoDup (JsMap.keys st) ->
  Forall (fun e => 0 < st_quantity (snd e)) st ->
  NoDup (JsMap.keys (replayStep st t)) /\
  Forall (fun e => 0 < st_quantity (snd e)) (replayStep st t).
Proof.
  intros Hq Hnd Hpos. unfold replayStep.
  destruct (String.eqb (type t) "BUY").
  - unfold JsMap.has. destruct (JsMap.get (symbol t) st) as [state|] eqn:Hg.
    + rewrite Hg. split; [apply NoDup_keys_set; assumption|].
      apply List.Forall_forall. intros e He.
      apply In_set in He as [->|He]; simpl.
      * apply get_Some_In in Hg.
        rewrite List.Forall_forall in Hpos. specialize (Hpos _ Hg).
        simpl in Hpos. apply Qc_pos_plus; [apply Qclt_le_weak|]; assumption.
      * rewrite List.Forall_forall in Hpos. auto.
    + rewrite get_set_eq. split; [do 2 apply NoDup_keys_set; assumption|].
      apply List.Forall_forall. intros e He.
      apply In_set_strong in He as [->|[He Hk]];
        [| |apply NoDup_keys_set; assumption]; simpl.
      * apply Qc_pos_plus; [apply Qcle_refl|assumption].
      * apply In_set in He as [->|He]; [simpl in Hk; congruence|].
        rewrite List.Forall_forall in Hpos. auto.
  - destruct (String.eqb (type t) "SELL"); [|auto].
    destruct (JsMap.get (symbol t) st) as [state|] eqn:Hg; [|auto].
    destruct (decide (st_quantity state - quantity t <= 0)) as [Hle|Hgt].
    + split; [apply NoDup_keys_delete; assumption|].
      apply List.Forall_forall. intros e He. apply In_delete in He as [He _].
      rewrite List.Forall_forall in Hpos. auto.
    + split; [apply NoDup_keys_set; assumption|].
      apply List.Forall_forall. intros e He.
      apply In_set in He as [->|He]; simpl.
      * apply Qcnot_le_lt. assumption.
      * rewrite List.Forall_forall in Hpos. auto.
Qed.

Lemma replay_wellformed l :
  Forall (fun t => 0 < quantity t) l ->
  NoDup (JsMap.keys (replay l)) /\
  Forall (fun e => 0 < st_quantity (snd e)) (replay l).
Proof.
  induction l as [|t l IH] using rev_ind; intros Hq.
  - split; [apply NoDup_nil_2|constructor].
  - apply Forall_app in Hq as [Hl Ht]. apply Forall_cons_1 in Ht as [Ht _].
    rewrite replay_snoc. destruct (IH Hl) as [Hnd Hpos].
    apply replayStep_wellformed; assumption.
Qed.

Lemma activeSymbolsOf_all st :
  Forall (fun e => 0 < st_quantity (snd e)) st ->
  activeSymbolsOf st
  = map (fun e => mkActiveSymbol (fst e) (st_quantity (snd e))
                    (avgCostOf (snd e))) st.
Proof.
  unfold activeSymbolsOf, avgCostOf.
  induction 1 as [|[sym state] st Hpos _ IH]; [reflexivity|].
  simpl in *. rewrite IH.
  rewrite decide_False by (apply Qclt_not_le; assumption).
  rewrite decide_True by assumption. reflexivity.
Qed.

(** X7.  When every logged quantity is positive (the schema's minimum is 1),
    the replayed map has one entry per open symbol, each of positive
    quantity, and the active symbols are exactly those entries, in the
    map's order, with average cost total cost over quantity. *)
Theorem replay_positions_wellformed (l : list Transaction) :
  Forall (fun t => 0 < quantity t) l ->
  NoDup (JsMap.keys (replay l)) /\
  Forall (fun e => 0 < st_quantity (snd e)) (replay l) /\
  activeSymbolsOf (replay l)
  = map (fun e => mkActiveSymbol (fst e) (st_quantity (snd e))
                    (avgCostOf (snd e))) (replay l) /\
  NoDup (map as_symbol (activeSymbolsOf (replay l))).
Proof.
  intros Hq. destruct (replay_wellformed l Hq) as [Hnd Hpos].
  split; [exact Hnd|]. split; [exact Hpos|].
  rewrite (activeSymbolsOf_all _ Hpos). split; [reflexivity|].
  rewrite map_map. simpl. exact Hnd.
Qed.

Lemma replay_positions_wellformed_witness :
  NoDup (map as_symbol (activeSymbolsOf (replay sampleLog))).
Proof.
  apply (replay_positions_wellformed sampleLog).
  repeat (apply List.Forall_cons; [qc_decide|]). apply List.Forall_nil.
Defined.

(** X8.  A SELL that leaves part of the position open does not change the
    position's average cost, and a BUY into an open position moves it to
    the quantity-weighted mean of the old cost and the purchase. *)
Theorem partial_sell_keeps_average_cost (st : JsMap.t string SymbolState)
    (txn : Transaction) (state : SymbolState) :
  JsMap.get (symbol txn) st = Some state ->
  0 < st_quantity state ->
  (type txn = "SELL" -> 0 < st_quantity state - quantity txn ->
   exists state',
     JsMap.get (symbol txn) (replayStep st txn) = Some state' /\
     st_quantity state' = st_quantity state - quantity txn /\
     avgCostOf state' = avgCostOf state) /\
  (type txn = "BUY" ->
   exists state',
     JsMap.get (symbol txn) (replayStep st txn) = Some state' /\
     st_quantity state' = st_quantity state + quantity txn /\
     st_totalCost state' = st_totalCost state + totalAmount txn).
Proof.
  intros Hg Hpos. split.
  - intros Hty Hleft. unfold replayStep. rewrite Hty. simpl. rewrite Hg.
    destruct (decide (0 < st_quantity state)); [|contradiction].
    destruct (decide (st_quantity state - quantity txn <= 0)) as [Hle|_];
      [exfalso; exact (Qclt_not_le _ _ Hleft Hle)|].
    eexists. rewrite get_set_eq. split; [reflexivity|]. simpl.
    split; [reflexivity|]. unfold avgCostOf. simpl.
    assert (Hq : st_quantity state <> 0).
    { intros E. rewrite E in Hpos. inversion Hpos. }
    assert (Hr : st_quantity state - quantity txn <> 0).
    { intros E. rewrite E in Hleft. inversion Hleft. }
    field. split; assumption.
  - intros Hty. unfold replayStep. rewrite Hty. simpl.
    unfold JsMap.has. rewrite Hg, Hg.
    eexists. rewrite get_set_eq. split; [reflexivity|]. simpl.
    split; reflexivity.
Qed.

Lemma partial_sell_keeps_average_cost_witness :
  exists state',
    JsMap.get "X"
      (replayStep (replay (take 1 sampleLog))
         (mkTransaction "s" "u1" "X" "SELL" (ofInt 4) (ofInt 99) (ofInt 396) 9))
    = Some state' /\
    st_quantity state' = ofInt 10 - ofInt 4 /\
    avgCostOf state' = ofInt 10.
Proof.
  destruct (partial_sell_keeps_average_cost (replay (take 1 sampleLog))
              (mkTransaction "s" "u1" "X" "SELL" (ofInt 4) (ofInt 99)
                 (ofInt 396) 9)
              (mkSymbolState (0 + ofInt 10) (0 + ofInt 100)) eq_refl)
    as [H _]; [qc_decide|].
  destruct (H eq_refl) as (state' & Hg & Hq & Ha); [qc_decide|].
  exists state'. split; [exact Hg|]. split.
  - rewrite Hq. apply Qc_is_canon. reflexivity.
  - rewrite Ha. apply Qc_is_canon. reflexivity.
Defined.

Lemma symbolNet_snoc sym l t :
  symbolNet sym (l ++ [t])
  = symbolNet sym l + (if decide (symbol t = sym) then signedQuantity t else 0).
Proof.
  unfold symbolNet. rewrite filter_app, netQuantity_app.
  rewrite filter_cons, filter_nil.
  destruct (decide (symbol t = sym));
    [rewrite netQuantity_single|rewrite netQuantity_nil]; reflexivity.
Qed.

Lemma neverShort_snoc l t :
  neverShort (l ++ [t]) ->
  neverShort l /\ forall sym, 0 <= symbolNet sym (l ++ [t]).
Proof.
  intros H. split.
  - intros pre post sym E. apply (H pre (post ++ [t]) sym).
    rewrite E, app_assoc. reflexivity.
  - intros sym. apply (H (l ++ [t]) [] sym). rewrite app_nil_r. reflexivity.
Qed.

Lemma replayStep_other st t sym :
  symbol t <> sym ->
  JsMap.get sym (replayStep st t) = JsMap.get sym st.
Proof.
  intros Hne. unfold replayStep.
  destruct (String.eqb (type t) "BUY").
  - unfold JsMap.has. destruct (JsMap.get (symbol t) st) eqn:Hg.
    + rewrite Hg. apply get_set_ne. assumption.
    + rewrite get_set_eq. rewrite !get_set_ne by assumption. reflexivity.
  - destruct (String.eqb (type t) "SELL"); [|reflexivity].
    destruct (JsMap.get (symbol t) st); [|reflexivity].
    destruct (decide (_ <= 0)).
    + apply get_delete_ne. assumption.
    + apply get_set_ne. assumption.
Qed.

Lemma Qc_plus_0_r (a : Qc) : a + 0 = a.
Proof. ring. Qed.

Lemma replay_matches_net l : forall sym,
  Forall (fun t => 0 < quantity t) l ->
  neverShort l ->
  match JsMap.get sym (replay l) with
  | Some state => st_quantity state = symbolNet sym l
  | None => symbolNet sym l = 0
  end.
Proof.
  induction l as [|t l IH] using rev_ind; intros sym Hq Hshort.
  - reflexivity.
  - apply Forall_app in Hq as [Hl Ht]. apply Forall_cons_1 in Ht as [Ht _].
    apply neverShort_snoc in Hshort as [Hshort Hnn].
    specialize (IH sym Hl Hshort). specialize (Hnn sym).
    rewrite symbolNet_snoc in *. rewrite replay_snoc.
    destruct (decide (symbol t = sym)) as [Hs|Hs];
      [|rewrite replayStep_other by assumption; rewrite Qc_plus_0_r;
        exact IH].
    subst sym. unfold replayStep, signedQuantity in *.
    destruct (String.eqb (type t) "BUY").
    + unfold JsMap.has.
      destruct (JsMap.get (symbol t) (replay l)) as [state|] eqn:Hg.
      * rewrite Hg, get_set_eq. simpl. rewrite IH. reflexivity.
      * rewrite get_set_eq, get_set_eq. simpl. rewrite IH. reflexivity.
    + destruct (String.eqb (type t) "SELL").
      * destruct (JsMap.get (symbol t) (replay l)) as [state|] eqn:Hg.
        -- destruct (decide (st_quantity state - quantity t <= 0)) as [Hle|Hgt].
           ++ rewrite get_delete_eq. rewrite <- IH.
              rewrite <- IH in Hnn. apply Qcle_antisym; assumption.
           ++ rewrite get_set_eq. simpl. rewrite IH. reflexivity.
        -- rewrite Hg. exfalso. rewrite IH in Hnn. clear - Hnn Ht.
           to_Q. change (this 0) with 0%Q in *. lra.
      * rewrite Qc_plus_0_r. exact IH.
Qed.

(** X9.  On a log of positive quantities in which no symbol is ever sold
    short, which is what the engine's holdings check maintains, the
    replayer's quantity for a symbol is the signed sum the engine itself
    computes for it; a symbol without state has net quantity zero. *)
Theorem replay_matches_ledger (l : list Transaction) (sym : string) :
  Forall (fun t => 0 < quantity t) l ->
  neverShort l ->
  match JsMap.get sym (replay l) with
  | Some state =>
      st_quantity state = symbolNet sym l /\ 0 < symbolNet sym l
  | None => symbolNet sym l = 0
  end.
Proof.
  intros Hq Hshort. pose proof (replay_matches_net l sym Hq Hshort) as H.
  destruct (JsMap.get sym (replay l)) as [state|] eqn:Hg; [|exact H].
  split; [exact H|]. rewrite <- H.
  destruct (replay_wellformed l Hq) as [_ Hpos].
  rewrite List.Forall_forall in Hpos.
  apply (Hpos (sym, state)). apply get_Some_In. assumption.
Qed.

(** ** From the engine's log to the portfolio's positions *)

Lemma symbolNet_findByUser uid sym l :
  symbolNet sym (findByUser uid l) = netQuantity (findByUserSymbol uid sym l).
Proof.
  unfold symbolNet, findByUser, findByUserSymbol. f_equal.
  induction l as [|t l IH]; [reflexivity|].
  rewrite !filter_cons.
  destruct (decide (userId t = uid)) as [Hu|Hu].
  - rewrite filter_cons. destruct (decide (symbol t = sym)) as [Hs|Hs].
    + rewrite decide_True by auto. rewrite IH. reflexivity.
    + rewrite decide_False by tauto. exact IH.
  - rewrite decide_False by tauto. exact IH.
Qed.

Lemma neverShort_snoc_intro l t :
  neverShort l -> (forall sym, 0 <= symbolNet sym (l ++ [t])) ->
  neverShort (l ++ [t]).
Proof.
  intros Hl Ht pre post sym E.
  destruct post as [|x post] using rev_ind.
  - rewrite app_nil_r in E. subst pre. apply Ht.
  - rewrite app_assoc in E. apply app_inj_tail in E as [E _].
    apply (Hl pre post sym E).
Qed.

Lemma neverShort_nil : neverShort [].
Proof.
  intros pre post sym E. symmetry in E. apply app_eq_nil in E as [-> _].
  apply Qcle_refl.
Qed.

(** The log invariant behind the replayer: positive quantities, and no
    user ever short of a symbol. *)
Lemma executeTrade_keeps_log env db uid0 sym ty q :
  Forall (fun t => 0 < quantity t) (transactions db) ->
  (forall uid, neverShort (findByUser uid (transactions db))) ->
  let db' := fst (executeTrade env db uid0 sym ty q) in
  Forall (fun t => 0 < quantity t) (transactions db') /\
  (forall uid, neverShort (findByUser uid (transactions db'))).
Proof.
  intros Hpos Hshort. unfold executeTrade.
  destruct (tradeBody env db uid0 sym ty q) as [e|[[uid u'] t]] eqn:Hbody;
    simpl; [auto|].
  apply tradeBody_commit in Hbody
    as (user & p & _ & _ & _ & Ht & _ & _ & Hq & Hcase).
  assert (Hqt : 0 < quantity t).
  { subst t. simpl. clear - Hq. to_Q. change (this 0) with 0%Q.
    change (this 1) with 1%Q in Hq. lra. }
  split.
  - apply Forall_app. split; [assumption|]. constructor; [assumption|constructor].
  - intros uid2. rewrite findByUser_app, findByUser_single.
    destruct (decide (userId t = uid2)) as [Hu|Hu];
      [|rewrite app_nil_r; apply Hshort].
    apply neverShort_snoc_intro; [apply Hshort|].
    intros sym2. rewrite symbolNet_snoc.
    assert (Hprev : 0 <= symbolNet sym2 (findByUser uid2 (transactions db))).
    { apply (Hshort uid2 (findByUser uid2 (transactions db)) [] sym2).
      rewrite app_nil_r. reflexivity. }
    destruct (decide (symbol t = sym2)) as [Hs|Hs];
      [|rewrite Qc_plus_0_r; assumption].
    unfold signedQuantity.
    destruct Hcase as [(Hty & _)|(Hty & Hnet & _)].
    + assert (E : String.eqb (type t) "BUY" = true)
        by (subst t ty; reflexivity).
      rewrite E. apply Qclt_le_weak. apply Qc_pos_plus; assumption.
    + assert (E1 : String.eqb (type t) "BUY" = false)
        by (subst t ty; reflexivity).
      assert (E2 : String.eqb (type t) "SELL" = true)
        by (subst t ty; reflexivity).
      rewrite E1, E2. rewrite symbolNet_findByUser.
      assert (Huid : uid2 = uid) by (subst t; auto).
      assert (Hsym : sym2 = trim (toUpperCase sym)) by (subst t; auto).
      assert (Hqq : quantity t = q) by (subst t; reflexivity).
      rewrite Huid, Hsym, Hqq. clear - Hnet.
      set (n := netQuantity _) in *. to_Q. change (this 0) with 0%Q. lra.
Qed.

Lemma runTrades_keeps_log rs : forall db,
  Forall (fun t => 0 < quantity t) (transactions db) ->
  (forall uid, neverShort (findByUser uid (transactions db))) ->
  Forall (fun t => 0 < quantity t) (transactions (runTrades db rs)) /\
  (forall uid, neverShort (findByUser uid (transactions (runTrades db rs)))).
Proof.
  induction rs as [|r rs IH]; intros db Hpos Hshort; simpl; [auto|].
  unfold runTrade.
  destruct (executeTrade_keeps_log (r_env r) db (r_userId r) (r_symbol r)
              (r_type r) (r_quantity r) Hpos Hshort) as [H1 H2].
  apply IH; assumption.
Qed.

Lemma executeTrade_log env db uid0 sym ty q :
  transactions (fst (executeTrade env db uid0 sym ty q)) = transactions db \/
  exists t, transactions (fst (executeTrade env db uid0 sym ty q))
            = transactions db ++ [t] /\ createdAt t = now env.
Proof.
  unfold executeTrade.
  destruct (tradeBody env db uid0 sym ty q) as [e|[[uid u'] t]] eqn:Hbody;
    simpl; [left; reflexivity|right].
  apply tradeBody_commit in Hbody as (user & p & _ & _ & _ & Ht & _).
  exists t. split; [reflexivity|]. subst t. reflexivity.
Qed.

Lemma StronglySorted_remove_middle (l1 l2 : list Z) x :
  StronglySorted Z.le (l1 ++ x :: l2) -> StronglySorted Z.le (l1 ++ l2).
Proof.
  induction l1 as [|y l1 IH]; simpl; intros H.
  - apply StronglySorted_inv in H as [H _]. exact H.
  - apply StronglySorted_inv in H as [H Hall].
    constructor; [apply IH; assumption|].
    apply List.Forall_app in Hall as [H1 H2].
    apply List.Forall_app. split; [assumption|].
    apply List.Forall_inv_tail in H2. assumption.
Qed.

Lemma runTrades_keeps_clock rs : forall db,
  clockOrdered db rs -> clockOrdered (runTrades db rs) [].
Proof.
  induction rs as [|r rs IH]; intros db H; simpl; [exact H|].
  apply IH. unfold clockOrdered in *. unfold runTrade.
  destruct (executeTrade_log (r_env r) db (r_userId r) (r_symbol r)
              (r_type r) (r_quantity r)) as [E|(t & E & Ht)]; rewrite E.
  - simpl in H. eapply StronglySorted_remove_middle. exact H.
  - rewrite map_app. simpl. rewrite Ht, <- app_assoc. exact H.
Qed.

Lemma sortByCreatedAt_sorted l :
  StronglySorted Z.le (map createdAt l) -> sortByCreatedAt l = l.
Proof.
  unfold sortByCreatedAt. induction l as [|x l IH]; [reflexivity|].
  simpl. intros H. apply StronglySorted_inv in H as [Hs Hall].
  rewrite (IH Hs). destruct l as [|y r]; [reflexivity|].
  simpl. apply List.Forall_inv in Hall.
  rewrite bool_decide_eq_true_2 by exact Hall. reflexivity.
Qed.

Lemma sorted_filter_createdAt (P : Transaction -> Prop)
    `{forall t, Decision (P t)} l :
  StronglySorted Z.le (map createdAt l) ->
  StronglySorted Z.le (map createdAt (filter P l)).
Proof.
  induction l as [|x l IH]; [auto|].
  simpl. intros Hs. apply StronglySorted_inv in Hs as [Hs Hall].
  rewrite filter_cons. destruct (decide (P x)); [|auto].
  simpl. constructor; [auto|].
  rewrite List.Forall_forall in *. intros z Hz. apply Hall.
  apply in_map_iff in Hz as (t & <- & Hin). apply in_map.
  apply list_elem_of_In in Hin. apply list_elem_of_filter in Hin as [_ Hin].
  apply list_elem_of_In. assumption.
Qed.

(** X10.  After any run of the engine from an empty log, with clocks that
    never go back, the quantity the portfolio replays for a user's symbol
    is the net quantity the engine checks SELLs against; a symbol the
    portfolio does not list has net quantity zero. *)
Theorem positions_reflect_ledger (db0 : Db) (rs : list Request)
    (uid : ObjectId) (sym : string) :
  transactions db0 = [] ->
  StronglySorted Z.le (map (fun r => now (r_env r)) rs) ->
  let db := runTrades db0 rs in
  let held := netQuantity (findByUserSymbol uid sym (transactions db)) in
  match JsMap.get sym
          (replay (sortByCreatedAt (findByUser uid (transactions db)))) with
  | Some state => st_quantity state = held /\ 0 < held
  | None => held = 0
  end.
Proof.
  intros Hempty Hclock db held.
  assert (Hsorted : StronglySorted Z.le (map createdAt (transactions db))).
  { pose proof (runTrades_keeps_clock rs db0) as H.
    unfold clockOrdered in H. rewrite Hempty in H. simpl in H.
    specialize (H Hclock). rewrite app_nil_r in H. exact H. }
  destruct (runTrades_keeps_log rs db0) as [Hpos Hshort].
  { rewrite Hempty. constructor. }
  { intros u. rewrite Hempty. apply neverShort_nil. }
  fold db in Hpos, Hshort.
  rewrite sortByCreatedAt_sorted
    by (unfold findByUser; apply sorted_filter_createdAt; exact Hsorted).
  assert (Hpos' : Forall (fun t => 0 < quantity t)
                         (findByUser uid (transactions db))).
  { unfold findByUser. apply Forall_forall. intros t Ht.
    apply list_elem_of_filter in Ht as [_ Ht].
    rewrite Forall_forall in Hpos. auto. }
  pose proof (replay_matches_net _ sym Hpos' (Hshort uid)) as Hnet.
  destruct (replay_wellformed _ Hpos') as [_ Hq].
  subst held. rewrite <- symbolNet_findByUser.
  destruct (JsMap.get sym (replay (findByUser uid (transactions db))))
    as [state|] eqn:Hg; [|exact Hnet].
  split; [exact Hnet|]. rewrite <- Hnet.
  rewrite List.Forall_forall in Hq.
  apply (Hq (sym, state)). apply get_Some_In. assumption.
Qed.

Lemma positions_reflect_ledger_witness :
  let db := runTrades sampleDb [sampleBuy; sampleSell] in
  match JsMap.get "AAPL"
          (replay (sortByCreatedAt (findByUser "u1" (transactions db)))) with
  | Some state =>
      st_quantity state
      = netQuantity (findByUserSymbol "u1" "AAPL" (transactions db)) /\
      0 < netQuantity (findByUserSymbol "u1" "AAPL" (transactions db))
  | None => netQuantity (findByUserSymbol "u1" "AAPL" (transactions db)) = 0
  end.
Proof.
  apply (positions_reflect_ledger sampleDb [sampleBuy; sampleSell] "u1" "AAPL").
  - reflexivity.
  - change (StronglySorted Z.le [1000; 2000]%Z). repeat constructor; lia.
Defined.

Lemma replay_matches_ledger_witness :
  match JsMap.get "X" (replay sampleLog) with
  | Some state =>
      st_quantity state = symbolNet "X" sampleLog /\
      0 < symbolNet "X" sampleLog
  | None => symbolNet "X" sampleLog = 0
  end.
Proof.
  apply (replay_matches_ledger sampleLog "X").
  - repeat (apply List.Forall_cons; [qc_decide|]). apply List.Forall_nil.
  - intros pre post sym E.
    destruct pre as [|a [|b [|c [|d pre]]]]; simpl in E;
      inversion E; subst;
      unfold symbolNet; rewrite ?filter_cons, ?filter_nil; simpl;
      destruct (decide ("X" = sym)); qc_decide.
Defined.

(** ** Portfolio totals *)

Lemma fold_left_sum {A} (f : A -> Qc) l : forall a,
  fold_left (fun sum x => sum + f x) l a = a + sumQc (map f l).
Proof.
  induction l as [|x l IH]; intros a; simpl.
  - unfold sumQc. simpl. ring.
  - rewrite IH. unfold sumQc. simpl. ring.
Qed.

Lemma Qc_mult_pos a b : 0 < a -> 0 < b -> 0 < a * b.
Proof. intros. to_Q. change (this 0) with 0%Q in *. nra. Qed.

Lemma tempPositions_sound quote active pos :
  Forall (fun a => 0 < as_netQty a) active ->
  In pos (tempPositionsOf quote active) ->
  validPrice (quote (pos_symbol pos)) = Some (pos_currentPrice pos) /\
  0 < netQty pos /\ 0 < pos_currentPrice pos /\
  marketValue pos = netQty pos * pos_currentPrice pos /\
  0 < marketValue pos /\
  unrealizedPnL pos = marketValue pos - avgCost pos * netQty pos.
Proof.
  unfold tempPositionsOf. intros Hact Hin.
  apply in_flat_map in Hin as (a & Ha & Hin).
  rewrite List.Forall_forall in Hact. specialize (Hact a Ha).
  destruct (validPrice (quote (as_symbol a))) as [p|] eqn:Hv; [|destruct Hin].
  destruct Hin as [<-|[]]. simpl.
  assert (Hp : 0 < p).
  { unfold validPrice in Hv. destruct (fetchedPrice _); [|discriminate].
    destruct (decide (q <= 0)); [discriminate|].
    inversion Hv; subst. apply Qcnot_le_lt. assumption. }
  repeat split; try assumption; try reflexivity.
  - apply Qc_mult_pos; assumption.
  - ring.
Qed.

Lemma activeSymbolsOf_positive st :
  Forall (fun a => 0 < as_netQty a) (activeSymbolsOf st).
Proof.
  unfold activeSymbolsOf. apply List.Forall_forall. intros a Ha.
  apply in_flat_map in Ha as ([sym state] & _ & Hin).
  destruct (decide (st_quantity state <= 0)) as [|Hgt]; [destruct Hin|].
  destruct Hin as [<-|[]]. simpl. apply Qcnot_le_lt. assumption.
Qed.

Lemma sumQc_pos l : l <> [] -> Forall (fun x => 0 < x) l -> 0 < sumQc l.
Proof.
  intros Hne Hall. destruct Hall as [|x l Hx Hl]; [contradiction|].
  clear Hne. revert x Hx. induction Hl as [|y l Hy Hl IH]; intros x Hx.
  - unfold sumQc. simpl. rewrite Qc_plus_0_r. assumption.
  - unfold sumQc in *. simpl. specialize (IH y Hy). simpl in IH.
    clear - Hx IH. set (s := foldr Qcplus 0 l) in *.
    to_Q. change (this 0) with 0%Q in *. lra.
Qed.

Lemma sumQc_scale (c : Qc) l :
  sumQc (map (fun x => x / c * ofInt 100) l) = sumQc l / c * ofInt 100.
Proof.
  induction l as [|x l IH]; unfold sumQc in *; simpl.
  - unfold Qcdiv. ring.
  - rewrite IH. unfold Qcdiv. ring.
Qed.

(** X11.  Every listed position has a positive quantity, a positive fetched
    price and the market value and unrealised P&L that follow from them;
    total equity is cash plus the positions' market values; and the
    positions' allocation percentages add up to 100 as soon as there is a
    position. *)
Theorem portfolio_totals (quote : string -> StockData) (user : User)
    (txns : list Transaction) :
  let p := portfolioOf quote user txns in
  pf_balance p = balance user /\
  totalMarketValue p = sumQc (map marketValue (positions p)) /\
  totalUnrealizedPnL p = sumQc (map unrealizedPnL (positions p)) /\
  totalEquity p = balance user + totalMarketValue p /\
  Forall (fun pos =>
            validPrice (quote (pos_symbol pos)) = Some (pos_currentPrice pos) /\
            0 < netQty pos /\ 0 < pos_currentPrice pos /\
            marketValue pos = netQty pos * pos_currentPrice pos /\
            0 < marketValue pos /\
            unrealizedPnL pos = marketValue pos - avgCost pos * netQty pos)
         (positions p) /\
  (positions p <> [] ->
   sumQc (map allocationPercent (positions p)) = ofInt 100).
Proof.
  intros p. subst p. unfold portfolioOf. simpl.
  set (temp := tempPositionsOf quote (activeSymbolsOf (replay txns))).
  set (total := fold_left (fun sum pos => sum + marketValue pos) temp 0).
  assert (Htotal : total = sumQc (map marketValue temp)).
  { subst total. rewrite fold_left_sum. ring. }
  assert (Hsound : forall pos, In pos temp ->
            validPrice (quote (pos_symbol pos)) = Some (pos_currentPrice pos) /\
            0 < netQty pos /\ 0 < pos_currentPrice pos /\
            marketValue pos = netQty pos * pos_currentPrice pos /\
            0 < marketValue pos /\
            unrealizedPnL pos = marketValue pos - avgCost pos * netQty pos).
  { intros pos Hin.
    apply (tempPositions_sound quote (activeSymbolsOf (replay txns)));
      [apply activeSymbolsOf_positive|exact Hin]. }
  assert (Hmv : map marketValue (map (withAllocation total) temp)
                = map marketValue temp)
    by (rewrite map_map; reflexivity).
  split; [reflexivity|]. split; [rewrite Hmv; exact Htotal|].
  split; [rewrite fold_left_sum; ring|]. split; [reflexivity|]. split.
  - apply List.Forall_forall. intros pos Hin.
    apply in_map_iff in Hin as (pos0 & <- & Hin). simpl.
    apply Hsound. assumption.
  - intros Hne.
    assert (Htemp : temp <> []) by (intros E; rewrite E in Hne; auto).
    assert (Hpos : 0 < total).
    { rewrite Htotal. apply sumQc_pos.
      - intros E. apply map_eq_nil in E. contradiction.
      - apply List.Forall_forall. intros x Hx.
        apply in_map_iff in Hx as (pos & <- & Hin). apply Hsound. assumption. }
    rewrite map_map. unfold withAllocation. simpl.
    destruct (decide (0 < total)); [|contradiction].
    rewrite <- (map_map marketValue (fun x => x / total * ofInt 100)).
    rewrite sumQc_scale, <- Htotal.
    assert (Hnz : total <> 0)
      by (intros E; rewrite E in Hpos; inversion Hpos).
    field. assumption.
Qed.

Lemma portfolio_totals_witness :
  sumQc (map allocationPercent (positions driftPortfolio)) = ofInt 100.
Proof.
  destruct (portfolio_totals (quoteAt (ofInt 30)) driftUser driftLog)
    as (_ & _ & _ & _ & _ & H).
  apply H. discriminate.
Defined.

Lemma tempPositions_symbols quote active :
  map pos_symbol (tempPositionsOf quote active)
  = List.filter (fun s => match validPrice (quote s) with
                          | Some _ => true | None => false end)
                (map as_symbol active).
Proof.
  unfold tempPositionsOf. induction active as [|a active IH]; [reflexivity|].
  simpl. destruct (validPrice (quote (as_symbol a))); simpl; rewrite IH;
    reflexivity.
Qed.

(** X12.  The positions list the open symbols in replay order, leaving out
    exactly those whose price could not be fetched as a positive number. *)
Theorem positions_need_valid_price (quote : string -> StockData)
    (user : User) (txns : list Transaction) :
  map pos_symbol (positions (portfolioOf quote user txns))
  = List.filter (fun s => match validPrice (quote s) with
                          | Some _ => true | None => false end)
                (map as_symbol (activeSymbolsOf (replay txns))).
Proof.
  unfold portfolioOf. simpl. rewrite map_map. simpl.
  apply tempPositions_symbols.
Qed.

(** ** The curve's cash and the ledger *)

Lemma curveStep_cash st t : cash (curveStep st t) = cash st + leanCashEffect t.
Proof.
  unfold curveStep, leanCashEffect, applyTxn.
  destruct (guards t) as [[d a]|]; [|simpl; ring].
  destruct (String.eqb (l_type t) "BUY"); simpl; ring.
Qed.

Lemma curveLoop_cash txns : forall st,
  cash (fold_left curveStep txns st)
  = cash st + sumQc (map leanCashEffect txns).
Proof.
  induction txns as [|t txns IH]; intros st; simpl.
  - unfold sumQc. simpl. ring.
  - rewrite IH, curveStep_cash. unfold sumQc. simpl. ring.
Qed.

Lemma sumQc_Permutation l1 l2 : Permutation l1 l2 -> sumQc l1 = sumQc l2.
Proof.
  unfold sumQc. induction 1 as [|x l l' _ IH|x y l|l l' l'' _ IH1 _ IH2];
    simpl; [reflexivity|rewrite IH; reflexivity|ring|congruence].
Qed.

Lemma leanCashEffect_lean t :
  (type t = "BUY" \/ type t = "SELL" -> 0 < totalAmount t) ->
  leanCashEffect (lean t) = cashEffect t.
Proof.
  intros Hpos. unfold leanCashEffect, cashEffect, guards, lean. simpl.
  destruct (String.eqb (type t) "BUY") eqn:Hb.
  - apply String.eqb_eq in Hb.
    rewrite decide_False by (apply Qclt_not_le; auto).
    rewrite Hb. reflexivity.
  - destruct (String.eqb (type t) "SELL") eqn:Hs.
    + apply String.eqb_eq in Hs.
      rewrite decide_False by (apply Qclt_not_le; auto). reflexivity.
    + destruct (decide (totalAmount t <= 0)); reflexivity.
Qed.

(** X13.  The cash the equity curve ends with is the account's balance, for
    every account whose ledger is consistent and whose BUY and SELL
    records carry positive amounts (as the engine writes them at positive
    prices); the order in which the store returns equal timestamps does
    not matter. *)
Theorem curve_cash_matches_balance (db : Db) (uid : ObjectId) (u : User)
    (s : Qc) :
  users db !! uid = Some u ->
  ledgerConsistent uid s db ->
  Forall (fun t => type t = "BUY" \/ type t = "SELL" -> 0 < totalAmount t)
         (findByUser uid (transactions db)) ->
  cash (curveLoop s (map lean (sortByCreatedAt
                                 (findByUser uid (transactions db)))))
  = balance u.
Proof.
  intros Hu (u' & Hu' & _ & Hbal) Hpos.
  rewrite Hu in Hu'. inversion Hu'; subst u'. rewrite Hbal.
  unfold curveLoop. rewrite curveLoop_cash. simpl. f_equal.
  unfold netCash.
  rewrite <- (sumQc_Permutation
                (map cashEffect (sortByCreatedAt
                                   (findByUser uid (transactions db))))
                (map cashEffect (findByUser uid (transactions db))))
    by (apply Permutation_map, stableSort_Permutation).
  rewrite map_map. f_equal. apply map_ext_in. intros t Ht.
  apply leanCashEffect_lean.
  rewrite List.Forall_forall in Hpos. apply Hpos.
  unfold sortByCreatedAt in Ht. apply stableSort_In in Ht. assumption.
Qed.

Lemma curve_cash_matches_balance_witness :
  cash (curveLoop (ofInt 100000)
          (map lean (sortByCreatedAt (findByUser "u1" (transactions driftDb)))))
  = ofInt 99880.
Proof.
  apply (curve_cash_matches_balance driftDb "u1" driftUser (ofInt 100000)).
  - reflexivity.
  - exists driftUser. split; [reflexivity|]. split; [reflexivity|].
    apply Qc_is_canon. reflexivity.
  - repeat (apply List.Forall_cons; [intros _; qc_decide|]).
    apply List.Forall_nil.
Defined.

(** ** The P&L series and the equity curve *)

Lemma pnl_lockstep sb txns : forall (cs : CurveState) (ps : PnLState),
  p_cash ps = cash cs -> p_holdings ps = holdings cs ->
  p_lastPrice ps = lastPrice cs ->
  pnlData ps = map (fun p => mkPnL (date p) (toFixed 2 (equity p - sb)))
                   (points cs) ->
  pnlData (fold_left (pnlStep sb) txns ps)
  = map (fun p => mkPnL (date p) (toFixed 2 (equity p - sb)))
        (points (fold_left curveStep txns cs)).
Proof.
  induction txns as [|t txns IH]; intros cs ps Hc Hh Hl Hd; simpl;
    [exact Hd|].
  apply IH; unfold pnlStep, curveStep; rewrite Hc, Hh, Hl;
    destruct (guards t) as [[d a]|]; try assumption;
    destruct (applyTxn (cash cs) (holdings cs) t a) as [c h]; simpl;
    try reflexivity.
  rewrite Hd, map_app. reflexivity.
Qed.

(** X14.  The P&L route returns the equity curve with the starting balance
    subtracted and the difference rounded to two decimals, point for
    point; this includes the single point of an empty log. *)
Theorem pnl_is_rounded_equity_change (nowT : Z) (sb : option Qc)
    (txns : list LeanTransaction) :
  pnlSeriesOf nowT sb txns
  = map (fun p => mkPnL (date p)
                    (toFixed 2 (equity p - default (ofInt 100000) sb)))
        (equityTimeSeriesOf nowT sb txns).
Proof.
  unfold pnlSeriesOf, equityTimeSeriesOf.
  destruct txns as [|t txns].
  - simpl. f_equal. f_equal.
    replace (default (ofInt 100000) sb - default (ofInt 100000) sb) with 0
      by ring.
    symmetry. apply toFixed_zero.
  - unfold pnlLoop, curveLoop. apply pnl_lockstep; reflexivity.
Qed.

(** ** Daily returns *)

Lemma byDayOf_snoc pts p :
  byDayOf (pts ++ [p]) = JsMap.set (dayOf (date p)) (equity p) (byDayOf pts).
Proof. unfold byDayOf. rewrite fold_left_app. reflexivity. Qed.

Lemma byDayOf_NoDup pts : NoDup (JsMap.keys (byDayOf pts)).
Proof.
  induction pts as [|p pts IH] using rev_ind.
  - apply NoDup_nil_2.
  - rewrite byDayOf_snoc. apply NoDup_keys_set. assumption.
Qed.

Lemma set_length_le {K V} `{EqDecision K} (m : JsMap.t K V) k v :
  (length (JsMap.set k v m) <= S (length m))%nat.
Proof.
  induction m as [|[k' v'] m IH]; simpl; [lia|].
  destruct (decide (k = k')); simpl; lia.
Qed.

Lemma byDayOf_length pts : (length (byDayOf pts) <= length pts)%nat.
Proof.
  induction pts as [|p pts IH] using rev_ind; [simpl; lia|].
  rewrite byDayOf_snoc, length_app. simpl.
  pose proof (set_length_le (byDayOf pts) (dayOf (date p)) (equity p)). lia.
Qed.

Lemma returnsFrom_length rest : forall prev,
  (length (returnsFrom prev rest) <= length rest)%nat.
Proof.
  induction rest as [|x rest IH]; intros prev; simpl; [lia|].
  rewrite length_app. specialize (IH x).
  destruct (decide (prev = 0)); simpl; lia.
Qed.

Lemma dailyEquitiesOf_length pts :
  length (dailyEquitiesOf pts) = length (byDayOf pts).
Proof.
  unfold dailyEquitiesOf. rewrite length_map. apply stableSort_length.
Qed.

(** X15.  One equity value is kept per calendar day, the last one of the day;
    the number of daily returns is below the number of days seen, hence
    below the number of points. *)
Theorem daily_returns_per_day (pts : list EquityPoint) :
  NoDup (JsMap.keys (byDayOf pts)) /\
  (forall p, JsMap.get (dayOf (date p)) (byDayOf (pts ++ [p]))
             = Some (equity p)) /\
  (forall p p', dayOf (date p') <> dayOf (date p) ->
     JsMap.get (dayOf (date p)) (byDayOf (pts ++ [p']))
     = JsMap.get (dayOf (date p)) (byDayOf pts)) /\
  (length (calculateDailyReturns pts) <= length (byDayOf pts) - 1)%nat /\
  (length (calculateDailyReturns pts) <= length pts - 1)%nat.
Proof.
  split; [apply byDayOf_NoDup|].
  split; [intros p; rewrite byDayOf_snoc; apply get_set_eq|].
  split; [intros p p' Hne; rewrite byDayOf_snoc; apply get_set_ne; assumption|].
  assert (H : (length (calculateDailyReturns pts)
               <= length (byDayOf pts) - 1)%nat).
  { unfold calculateDailyReturns.
    destruct (decide (length pts < 2)%nat); [simpl; lia|].
    rewrite <- dailyEquitiesOf_length.
    destruct (dailyEquitiesOf pts) as [|x rest]; [simpl; lia|].
    simpl. pose proof (returnsFrom_length rest x). lia. }
  split; [exact H|]. pose proof (byDayOf_length pts). lia.
Qed.

Lemma byDayOf_one_day d pts : forall m,
  Forall (fun p => dayOf (date p) = d) pts ->
  (m = [] \/ exists v, m = [(d, v)]) ->
  let m' := fold_left (fun byDay p => JsMap.set (dayOf (date p)) (equity p) byDay)
                      pts m in
  m' = [] \/ exists v, m' = [(d, v)].
Proof.
  induction pts as [|p pts IH]; intros m Hall Hm; simpl; [exact Hm|].
  apply Forall_cons_1 in Hall as [Hp Hall].
  apply IH; [assumption|]. right. rewrite Hp.
  destruct Hm as [->|[v ->]]; simpl.
  - eauto.
  - rewrite decide_True by reflexivity. eauto.
Qed.

Lemma one_day_no_returns d pts :
  Forall (fun p => dayOf (date p) = d) pts -> calculateDailyReturns pts = [].
Proof.
  intros Hall. unfold calculateDailyReturns.
  destruct (decide (length pts < 2)%nat); [reflexivity|].
  assert (Hb : byDayOf pts = [] \/ exists v, byDayOf pts = [(d, v)])
    by exact (byDayOf_one_day d pts [] Hall (or_introl eq_refl)).
  unfold dailyEquitiesOf. destruct Hb as [E|[v E]]; rewrite E; reflexivity.
Qed.

(** X16.  A curve whose points all fall on one calendar day (in particular the
    single point of an account without transactions) has no daily
    return, and the snapshot reports volatility 0 and Sharpe ratio 0. *)
Theorem one_day_curve_has_no_risk_figures (Math_pow : Qc -> Qc -> Qc)
    (Math_sqrt : Qc -> Qc) (sectorOf : string -> string) (p : Portfolio)
    (pts : list EquityPoint) (d : Z) :
  Forall (fun pt => dayOf (date pt) = d) pts ->
  calculateDailyReturns pts = [] /\
  annualisedReturnOf Math_pow pts = 0 /\
  volatility (snapshotOf Math_pow Math_sqrt sectorOf p pts) = 0 /\
  sharpeRatio (snapshotOf Math_pow Math_sqrt sectorOf p pts) = 0.
Proof.
  intros Hall. pose proof (one_day_no_returns d pts Hall) as Hret.
  destruct (snapshot_fields Math_pow Math_sqrt sectorOf p pts)
    as (_ & _ & _ & _ & _ & _ & Hvol & Hsh & _).
  split; [exact Hret|]. split.
  { unfold annualisedReturnOf. rewrite Hret. reflexivity. }
  rewrite Hvol, Hsh, Hret. unfold calculateVolatility, calculateSharpe.
  simpl. split; apply toFixed_zero.
Qed.

Lemma one_day_curve_has_no_risk_figures_witness :
  sharpeRatio (snapshotOf (fun x y => x * y) (fun x => x) (fun _ => "Unknown")
                 edgePortfolio
                 (equityTimeSeriesOf 5 (Some (ofInt 100000)) []))
  = 0.
Proof.
  apply (one_day_curve_has_no_risk_figures (fun x y => x * y) (fun x => x)
           (fun _ => "Unknown") edgePortfolio
           (equityTimeSeriesOf 5 (Some (ofInt 100000)) []) 0).
  repeat constructor.
Defined.

Lemma daily_returns_per_day_witness :
  JsMap.get (dayOf 1000) (byDayOf (driftCurve ++ [mkPoint (msPerDay + 5) 1]))
  = JsMap.get (dayOf 1000) (byDayOf driftCurve).
Proof.
  destruct (daily_returns_per_day driftCurve) as (_ & _ & H & _).
  apply (H (mkPoint 1000 0) (mkPoint (msPerDay + 5) 1)).
  vm_compute. discriminate.
Defined.

(** ** Sorting puts in order *)

Section SortOrder.
Context {A : Type} (le : A -> A -> bool).
Hypothesis le_total : forall a b, le a b = false -> le b a = true.
Hypothesis le_trans : forall a b c, le a b = true -> le b c = true -> le a c = true.

Let R (a b : A) : Prop := le a b = true.

Lemma insertSorted_sorted x l :
  StronglySorted R l -> StronglySorted R (insertSorted le x l).
Proof.
  induction l as [|y l IH]; simpl; intros Hs.
  - constructor; [constructor|constructor].
  - apply StronglySorted_inv in Hs as [Hs Hall].
    destruct (le x y) eqn:Hxy.
    + constructor; [constructor; assumption|].
      constructor; [exact Hxy|].
      rewrite List.Forall_forall in *. intros z Hz.
      apply (le_trans x y z); [exact Hxy|apply Hall; assumption].
    + constructor; [apply IH; assumption|].
      rewrite List.Forall_forall in *. intros z Hz.
      apply (Permutation_in _ (insertSorted_Permutation le x l)) in Hz.
      destruct Hz as [<-|Hz]; [apply le_total; exact Hxy|apply Hall; assumption].
Qed.

Lemma stableSort_sorted l : StronglySorted R (stableSort le l).
Proof.
  induction l as [|x l IH]; simpl; [constructor|].
  apply insertSorted_sorted. exact IH.
Qed.

Lemma sorted_last_max lo r :
  (forall a, le a a = true) ->
  StronglySorted R (lo :: r) ->
  Forall (fun q => R q (List.last r lo)) (lo :: r).
Proof.
  intros Hrefl. revert lo. induction r as [|y r IH]; intros lo Hs.
  - constructor; [apply Hrefl|constructor].
  - apply StronglySorted_inv in Hs as [Hs Hall].
    specialize (IH y Hs).
    change (List.last (y :: r) lo) with
      (match r with [] => y | _ => List.last r lo end).
    assert (E : match r with [] => y | _ => List.last r lo end = List.last r y).
    { destruct r; [reflexivity|]. simpl. clear.
      revert a. induction r as [|b r IHr]; intros a; [reflexivity|].
      simpl. apply IHr. }
    rewrite E. constructor; [|exact IH].
    apply List.Forall_inv in IH. apply List.Forall_inv in Hall.
    apply (le_trans lo y _); assumption.
Qed.
End SortOrder.

(** ** Top gainer and top loser *)

Lemma last_In {A} (r : list A) (d : A) : In (List.last r d) (d :: r).
Proof.
  revert d. induction r as [|x r IH]; intros d; [left; reflexivity|].
  right. change (List.last (x :: r) d) with
           (match r with [] => x | _ => List.last r d end).
  destruct r as [|y r]; [left; reflexivity|].
  specialize (IH x). simpl in IH. destruct IH as [E|Hin].
  - left. rewrite E.
    clear. revert y. induction r as [|b r IHr]; intros y; [reflexivity|].
    simpl. apply IHr.
  - right.
    assert (E : List.last (y :: r) d = List.last (y :: r) x).
    { clear. revert y. induction r as [|b r IHr]; intros y; [reflexivity|].
      simpl in *. apply IHr. }
    rewrite E. exact Hin.
Qed.

(** X17.  With positions present, the top gainer is a position of greatest
    [gainPercent] and the top loser one of least; the loser is reported
    only when its symbol differs from the gainer's.  Without positions
    neither is reported. *)
Theorem top_gainer_and_loser (ps : list Position) :
  (ps = [] -> topGainerLoserOf ps = (None, None)) /\
  (ps <> [] ->
   exists hi lo,
     In hi ps /\ In lo ps /\
     Forall (fun q => gainPercent q <= gainPercent hi) ps /\
     Forall (fun q => gainPercent lo <= gainPercent q) ps /\
     topGainerLoserOf ps
     = (Some (pos_symbol hi),
        if String.eqb (pos_symbol hi) (pos_symbol lo) then None
        else Some (pos_symbol lo))).
Proof.
  split; [intros ->; reflexivity|]. intros Hne.
  unfold topGainerLoserOf.
  set (le := fun a b : Position =>
               bool_decide (gainPercent a <= gainPercent b)).
  assert (Htotal : forall a b, le a b = false -> le b a = true).
  { intros a b H. apply bool_decide_eq_false in H.
    apply bool_decide_eq_true. apply Qclt_le_weak, Qcnot_le_lt. assumption. }
  assert (Htrans : forall a b c, le a b = true -> le b c = true -> le a c = true).
  { intros a b c H1 H2. apply bool_decide_eq_true in H1, H2.
    apply bool_decide_eq_true. eapply Qcle_trans; eassumption. }
  assert (Hrefl : forall a, le a a = true)
    by (intros a; apply bool_decide_eq_true, Qcle_refl).
  pose proof (stableSort_sorted le Htotal Htrans ps) as Hsorted.
  pose proof (stableSort_Permutation le ps) as Hperm.
  destruct (stableSort le ps) as [|lo r] eqn:E.
  { apply Permutation_nil in Hperm. contradiction. }
  exists (List.last r lo), lo.
  pose proof (sorted_last_max le Htrans lo r Hrefl Hsorted) as Hmax.
  apply StronglySorted_inv in Hsorted as [_ Hmin].
  repeat split.
  - apply (Permutation_in _ Hperm). apply last_In.
  - apply (Permutation_in _ Hperm). left. reflexivity.
  - apply List.Forall_forall. intros q Hq.
    apply (Permutation_in _ (Permutation_sym Hperm)) in Hq.
    rewrite List.Forall_forall in Hmax. specialize (Hmax q Hq).
    apply bool_decide_eq_true in Hmax. exact Hmax.
  - apply List.Forall_forall. intros q Hq.
    apply (Permutation_in _ (Permutation_sym Hperm)) in Hq.
    destruct Hq as [<-|Hq]; [apply Qcle_refl|].
    rewrite List.Forall_forall in Hmin. specialize (Hmin q Hq).
    apply bool_decide_eq_true in Hmin. exact Hmin.
Qed.

Lemma top_gainer_and_loser_witness :
  exists hi lo,
    In hi (positions edgePortfolio) /\ In lo (positions edgePortfolio) /\
    topGainerLoserOf (positions edgePortfolio)
    = (Some (pos_symbol hi),
       if String.eqb (pos_symbol hi) (pos_symbol lo) then None
       else Some (pos_symbol lo)).
Proof.
  destruct (top_gainer_and_loser (positions edgePortfolio)) as [_ H].
  destruct H as (hi & lo & H1 & H2 & _ & _ & H5); [discriminate|].
  exists hi, lo. repeat split; assumption.
Defined.

(** ** Sector breakdown *)

Lemma sum_values_set (m : JsMap.t string Qc) k v :
  sumQc (map snd (JsMap.set k (default 0 (JsMap.get k m) + v) m))
  = sumQc (map snd m) + v.
Proof.
  unfold sumQc. induction m as [|[k' v'] m IH]; simpl.
  - ring.
  - destruct (decide (k = k')) as [->|Hne]; simpl; [ring|].
    rewrite IH. ring.
Qed.

Lemma sectorMapOf_snoc sectorOf ps pos :
  sectorMapOf sectorOf (ps ++ [pos])
  = JsMap.set (sectorOf (pos_symbol pos))
      (default 0 (JsMap.get (sectorOf (pos_symbol pos))
                            (sectorMapOf sectorOf ps))
       + marketValue pos)
      (sectorMapOf sectorOf ps).
Proof. unfold sectorMapOf. rewrite fold_left_app. reflexivity. Qed.

Lemma sectorMapOf_facts sectorOf ps :
  NoDup (JsMap.keys (sectorMapOf sectorOf ps)) /\
  sumQc (map snd (sectorMapOf sectorOf ps)) = sumQc (map marketValue ps).
Proof.
  induction ps as [|pos ps [IH1 IH2]] using rev_ind.
  - split; [apply NoDup_nil_2|reflexivity].
  - rewrite sectorMapOf_snoc. split; [apply NoDup_keys_set; assumption|].
    rewrite sum_values_set, IH2, map_app, sumQc_app.
    unfold sumQc. simpl. ring.
Qed.

(** X18.  The sector breakdown lists every sector once, in descending order of
    its rounded allocation, and the market values grouped by sector add
    up to the market value of all positions. *)
Theorem sector_breakdown_ordered (sectorOf : string -> string) (te : Qc)
    (ps : list Position) :
  StronglySorted (fun a b => sa_allocationPct b <= sa_allocationPct a)
                 (sectorBreakdownOf sectorOf te ps) /\
  NoDup (map sector (sectorBreakdownOf sectorOf te ps)) /\
  (forall pos, In pos ps ->
     In (sectorOf (pos_symbol pos))
        (map sector (sectorBreakdownOf sectorOf te ps))) /\
  sumQc (map snd (sectorMapOf sectorOf ps)) = sumQc (map marketValue ps).
Proof.
  destruct (sectorMapOf_facts sectorOf ps) as [Hnd Hsum].
  set (le := fun a b : SectorAllocation =>
               bool_decide (sa_allocationPct b <= sa_allocationPct a)).
  set (f := fun '(s, value) =>
              mkSector s (if decide (0 < te)
                          then toFixed 2 (value / te * ofInt 100) else 0)).
  assert (Hkeys : map sector (map f (sectorMapOf sectorOf ps))
                  = JsMap.keys (sectorMapOf sectorOf ps)).
  { rewrite map_map. apply map_ext. intros [s v]. reflexivity. }
  assert (Hshape : sectorBreakdownOf sectorOf te ps
                   = stableSort le (map f (sectorMapOf sectorOf ps))).
  { unfold sectorBreakdownOf. destruct ps; reflexivity. }
  rewrite Hshape.
  assert (Htotal : forall a b, le a b = false -> le b a = true).
  { intros a b H. apply bool_decide_eq_false in H.
    apply bool_decide_eq_true. apply Qclt_le_weak, Qcnot_le_lt. assumption. }
  assert (Htrans : forall a b c, le a b = true -> le b c = true -> le a c = true).
  { intros a b c H1 H2. apply bool_decide_eq_true in H1, H2.
    apply bool_decide_eq_true. eapply Qcle_trans; eassumption. }
  pose proof (stableSort_Permutation le (map f (sectorMapOf sectorOf ps)))
    as Hperm.
  split; [|split; [|split]].
  - pose proof (stableSort_sorted le Htotal Htrans
                  (map f (sectorMapOf sectorOf ps))) as Hs.
    clear - Hs. induction Hs as [|a l _ IH Hall]; constructor; [exact IH|].
    rewrite List.Forall_forall in *. intros x Hx.
    specialize (Hall x Hx). apply bool_decide_eq_true in Hall. exact Hall.
  - rewrite (Permutation_map sector Hperm), Hkeys. exact Hnd.
  - intros pos Hin.
    apply (Permutation_in _ (Permutation_sym (Permutation_map sector Hperm))).
    rewrite Hkeys. clear - Hin.
    induction ps as [|q ps IH] using rev_ind; [destruct Hin|].
    rewrite sectorMapOf_snoc, keys_set.
    apply in_app_or in Hin as [Hin|[<-|[]]].
    + specialize (IH Hin). destruct (JsMap.has _ _); [exact IH|].
      apply in_or_app. left. exact IH.
    + destruct (JsMap.has _ _) eqn:Hh.
      * apply has_get in Hh. destruct Hh as [v Hv].
        apply get_Some_In in Hv. unfold JsMap.keys.
        apply in_map_iff. exists (sectorOf (pos_symbol q), v). auto.
      * apply in_or_app. right. left. reflexivity.
  - exact Hsum.
Qed.

(** ** The sector cache *)

(** X19.  A sector that is in the cache is answered from it, whatever the
    token and the profile service; after a lookup made with a token, the
    same symbol in any letter case gets the same answer from the cache
    alone; without a token a miss answers "Unknown" and caches nothing. *)
Theorem sector_cache_memoises (token : string)
    (fetchProfile : string -> option (option string))
    (sectorCache : JsMap.t string string) (symbol0 : string) :
  let answer := fst (getSymbolSector token fetchProfile sectorCache symbol0) in
  let cache' := snd (getSymbolSector token fetchProfile sectorCache symbol0) in
  (forall s, JsMap.get (toUpperCase symbol0) sectorCache = Some s ->
     answer = s /\ cache' = sectorCache) /\
  (JsMap.get (toUpperCase symbol0) sectorCache = None ->
   token = EmptyString -> answer = "Unknown" /\ cache' = sectorCache) /\
  (token <> EmptyString ->
   forall token' fetch' symbol1,
     toUpperCase symbol1 = toUpperCase symbol0 ->
     getSymbolSector token' fetch' cache' symbol1 = (answer, cache')).
Proof.
  intros answer cache'. subst answer cache'. unfold getSymbolSector.
  destruct (JsMap.get (toUpperCase symbol0) sectorCache) as [s|] eqn:Hg.
  - simpl. split; [intros ? [= <-]; auto|]. split; [discriminate|].
    intros _ token' fetch' symbol1 ->. rewrite Hg. reflexivity.
  - split; [discriminate|]. split.
    + intros _ ->. simpl. auto.
    + intros Htok token' fetch' symbol1 Hs.
      destruct token as [|c token]; [contradiction|]. simpl.
      rewrite Hs.
      destruct (fetchProfile (toUpperCase symbol0)) as [profile|]; simpl;
        rewrite get_set_eq; reflexivity.
Qed.

Lemma sector_cache_memoises_witness :
  getSymbolSector EmptyString (fun _ => None)
    (snd (getSymbolSector "key" (fun _ => Some (Some "Technology"))
            JsMap.empty "aapl"))
    "AAPL"
  = ("Technology",
     snd (getSymbolSector "key" (fun _ => Some (Some "Technology"))
            JsMap.empty "aapl")).
Proof.
  destruct (sector_cache_memoises "key" (fun _ => Some (Some "Technology"))
              JsMap.empty "aapl") as (_ & _ & H).
  apply (H ltac:(discriminate) EmptyString (fun _ => None) "AAPL").
  reflexivity.
Defined.

Lemma sector_breakdown_ordered_witness :
  In "Unknown"
     (map sector (sectorBreakdownOf (fun _ => "Unknown") (ofInt 100000)
                    (positions edgePortfolio))).
Proof.
  destruct (sector_breakdown_ordered (fun _ => "Unknown") (ofInt 100000)
              (positions edgePortfolio)) as (_ & _ & H & _).
  destruct (positions edgePortfolio) as [|pos ps] eqn:E; [discriminate E|].
  apply (H pos). left. reflexivity.
Defined.

(** ** Equity moves only by revaluation *)

Lemma holdingsValueOf_sum (h lp : JsMap.t string Qc) :
  holdingsValueOf h lp
  = sumQc (map (fun e => snd e * default 0 (JsMap.get (fst e) lp)) h).
Proof.
  unfold holdingsValueOf.
  assert (G : forall a,
    fold_left (fun acc '(sym, qty) =>
                 acc + qty * default 0 (JsMap.get sym lp)) h a
    = a + sumQc (map (fun e => snd e * default 0 (JsMap.get (fst e) lp)) h)).
  { induction h as [|[s q] h IH]; intros a; simpl.
    - unfold sumQc. simpl. ring.
    - rewrite IH. unfold sumQc. simpl. ring. }
  rewrite G. ring.
Qed.

Lemma get_notin_keys (h : JsMap.t string Qc) k :
  ~ k ∈ JsMap.keys h -> JsMap.get k h = None.
Proof.
  intros Hn. apply get_None_keys. intros Hin. apply Hn.
  apply list_elem_of_In. assumption.
Qed.

Lemma value_reprice (h lp : JsMap.t string Qc) sym p :
  NoDup (JsMap.keys h) ->
  holdingsValueOf h (JsMap.set sym p lp)
  = holdingsValueOf h lp
    + default 0 (JsMap.get sym h) * (p - default 0 (JsMap.get sym lp)).
Proof.
  rewrite !holdingsValueOf_sum. unfold sumQc.
  induction h as [|[s q] h IH]; intros Hnd; simpl; [ring|].
  apply NoDup_cons in Hnd as [Hnot Hnd]. specialize (IH Hnd).
  destruct (decide (sym = s)) as [->|Hne].
  - rewrite get_set_eq. rewrite IH.
    rewrite (get_notin_keys h s Hnot). simpl. ring.
  - rewrite get_set_ne by assumption. rewrite IH. ring.
Qed.

Lemma value_set (h lp : JsMap.t string Qc) sym q' :
  NoDup (JsMap.keys h) ->
  holdingsValueOf (JsMap.set sym q' h) lp
  = holdingsValueOf h lp
    + (q' - default 0 (JsMap.get sym h)) * default 0 (JsMap.get sym lp).
Proof.
  rewrite !holdingsValueOf_sum. unfold sumQc.
  induction h as [|[s q] h IH]; intros Hnd; simpl; [ring|].
  apply NoDup_cons in Hnd as [Hnot Hnd]. specialize (IH Hnd).
  destruct (decide (sym = s)) as [->|Hne]; simpl; [ring|].
  rewrite IH. ring.
Qed.

Lemma value_delete (h lp : JsMap.t string Qc) sym :
  NoDup (JsMap.keys h) ->
  holdingsValueOf (JsMap.delete sym h) lp
  = holdingsValueOf h lp
    - default 0 (JsMap.get sym h) * default 0 (JsMap.get sym lp).
Proof.
  rewrite !holdingsValueOf_sum. unfold sumQc.
  induction h as [|[s q] h IH]; intros Hnd; simpl; [ring|].
  apply NoDup_cons in Hnd as [Hnot Hnd]. specialize (IH Hnd).
  destruct (decide (sym = s)) as [->|Hne]; simpl.
  - rewrite IH, (get_notin_keys h s Hnot). simpl. ring.
  - rewrite IH. ring.
Qed.

Lemma applyTxn_NoDup c h t a :
  NoDup (JsMap.keys h) -> NoDup (JsMap.keys (snd (applyTxn c h t a))).
Proof.
  intros Hnd. unfold applyTxn.
  destruct (String.eqb (l_type t) "BUY"); simpl;
    [apply NoDup_keys_set; assumption|].
  destruct (decide (_ <= 0));
    [apply NoDup_keys_delete|apply NoDup_keys_set]; assumption.
Qed.

(** X20.  For a document whose amount is quantity times price, and which does
    not sell more than the curve holds, the equity after the step is the
    equity before it plus the revaluation of what was already held in
    that symbol at the new price: the trade itself is equity neutral.
    The point emitted carries that equity.  In particular the first trade
    in a symbol leaves the equity where it was. *)
Theorem equity_moves_only_by_revaluation (st : CurveState)
    (t : LeanTransaction) (d : Z) (amount : Qc) :
  NoDup (JsMap.keys (holdings st)) ->
  guards t = Some (d, amount) ->
  amount = l_quantity t * l_price t ->
  let held := default 0 (JsMap.get (l_symbol t) (holdings st)) in
  let oldPrice := default 0 (JsMap.get (l_symbol t) (lastPrice st)) in
  (l_type t = "SELL" -> l_quantity t <= held) ->
  equityOf (curveStep st t) = equityOf st + held * (l_price t - oldPrice) /\
  points (curveStep st t)
  = points st ++ [mkPoint d (equityOf (curveStep st t))] /\
  NoDup (JsMap.keys (holdings (curveStep st t))) /\
  (held = 0 -> equityOf (curveStep st t) = equityOf st).
Proof.
  intros Hnd Hg Hamt held oldPrice Hsell.
  assert (Heq : equityOf (curveStep st t)
                = equityOf st + held * (l_price t - oldPrice)).
  { unfold equityOf, curveStep. rewrite Hg. unfold applyTxn.
    fold held.
    destruct (String.eqb (l_type t) "BUY") eqn:Hb; simpl.
    - rewrite value_set by assumption.
      rewrite value_reprice by assumption.
      rewrite get_set_eq. simpl. fold held oldPrice. rewrite Hamt. ring.
    - apply guards_Some in Hg as (_ & _ & _ & [Hty|Hty]);
        [rewrite Hty in Hb; discriminate|].
      specialize (Hsell Hty).
      destruct (decide (held - l_quantity t <= 0)) as [Hle|Hgt]; simpl.
      + assert (E : l_quantity t = held).
        { apply Qcle_antisym; [assumption|].
          clear - Hle. to_Q. change (this 0) with 0%Q in *. lra. }
        rewrite value_delete by assumption.
        rewrite value_reprice by assumption.
        rewrite get_set_eq. simpl. fold held oldPrice. rewrite Hamt, E. ring.
      + rewrite value_set by assumption.
        rewrite value_reprice by assumption.
        rewrite get_set_eq. simpl. fold held oldPrice. rewrite Hamt. ring. }
  split; [exact Heq|]. split; [|split].
  - unfold equityOf, curveStep. rewrite Hg.
    destruct (applyTxn (cash st) (holdings st) t amount) as [c h].
    reflexivity.
  - unfold curveStep. rewrite Hg.
    pose proof (applyTxn_NoDup (cash st) (holdings st) t amount Hnd) as H.
    destruct (applyTxn (cash st) (holdings st) t amount) as [c h].
    exact H.
  - intros H0. rewrite Heq, H0. ring.
Qed.

Lemma equity_moves_only_by_revaluation_witness :
  equityOf (curveStep (curveInit (ofInt 100000))
              (mkLean "AAPL" "BUY" (ofInt 100) (ofInt 150) (Some (ofInt 15000))
                      (Some 1000%Z)))
  = equityOf (curveInit (ofInt 100000)).
Proof.
  destruct (equity_moves_only_by_revaluation (curveInit (ofInt 100000))
              (mkLean "AAPL" "BUY" (ofInt 100) (ofInt 150)
                      (Some (ofInt 15000)) (Some 1000%Z))
              1000 (ofInt 15000)) as (_ & _ & _ & H).
  - apply NoDup_nil_2.
  - reflexivity.
  - apply Qc_is_canon. reflexivity.
  - discriminate.
  - apply H. reflexivity.
Defined.

(** ** Volatility of a steady curve *)





